(** * Game of Life engine (src/gameOfLife.ts): shallow embedding and properties

    The engine is a set of pure functions over [Uint8Array] buffers.  The
    embedding follows the TypeScript source function by function.

    Modelling conventions.
    - Arguments of type [number] are integer valued and modelled as [Z]
      (IEEE-754 rounding, infinities and fractional arguments are outside
      the model).  The arithmetic of the engine on such numbers is exact
      while the values stay within 2^53 in magnitude, which every index
      into an existing buffer does.  Intermediate values can still be [NaN]
      for integer arguments ([v % 0], [n + undefined]); they are modelled
      by [number].
    - [a % b] is the truncated remainder of ECMAScript ([Z.rem]), whose sign
      follows the dividend.
    - A [Uint8Array] is a [list Z] of bytes.  Reading outside the buffer
      gives [undefined] ([None]); writing outside the buffer (or at a
      [NaN] index) is ignored; a written value is reduced modulo 256.
    - [new Uint8Array(len)] throws a [RangeError] for a negative length.
      The [RangeError] of a length too large to allocate is not modelled:
      where a theorem says that a function returns a fresh buffer, that is
      for a length at which a buffer exists or is given as returned. *)

From Stdlib Require Import ZArith Lia Bool.
From Stdlib Require QArith.
From stdpp Require Import base list.

Local Open Scope Z_scope.

(** ** ECMAScript values used by the engine *)

Module JS.

Inductive number : Type :=
| NaN
| Int (z : Z).

#[global] Instance number_eq_dec : EqDecision number.
Proof. solve_decision. Defined.

Definition add (a b : number) : number :=
  match a, b with
  | Int x, Int y => Int (x + y)
  | _, _ => NaN
  end.

Definition mul (a b : number) : number :=
  match a, b with
  | Int x, Int y => Int (x * y)
  | _, _ => NaN
  end.

(** [a % b]: truncated remainder, [NaN] for a zero divisor. *)
Definition rem (a b : number) : number :=
  match a, b with
  | Int x, Int y => if y =? 0 then NaN else Int (Z.rem x y)
  | _, _ => NaN
  end.

Inductive error : Type := RangeError.

Inductive result (A : Type) : Type :=
| Ok (a : A)
| Throw (e : error).
Arguments Ok {A} a.
Arguments Throw {A} e.

Abbreviation Uint8Array := (list Z).

(** [new Uint8Array(len)], for a length that can be allocated. *)
Definition newUint8Array (len : Z) : result Uint8Array :=
  if len <? 0 then Throw RangeError else Ok (replicate (Z.to_nat len) 0).

(** [a[i]] as an rvalue; [None] is [undefined]. *)
Definition get (a : Uint8Array) (i : number) : option Z :=
  match i with
  | Int z => if z <? 0 then None else a !! Z.to_nat z
  | NaN => None
  end.

(** [a[i] = v] *)
Definition set (a : Uint8Array) (i : number) (v : Z) : Uint8Array :=
  match i with
  | Int z => if z <? 0 then a else <[Z.to_nat z := v mod 256]> a
  | NaN => a
  end.

(** ToNumber of an element read: [undefined] becomes [NaN]. *)
Definition toNumber (o : option Z) : number :=
  match o with
  | Some v => Int v
  | None => NaN
  end.

(** ToBoolean of an element read. *)
Definition truthy (o : option Z) : bool :=
  match o with
  | Some v => negb (v =? 0)
  | None => false
  end.

(** [o === 1] *)
Definition isOne (o : option Z) : bool :=
  match o with
  | Some v => v =? 1
  | None => false
  end.

(** ToBoolean of [table[n]] for a boolean array [table]. *)
Definition truthyAt (table : list bool) (n : number) : bool :=
  match n with
  | Int z => if z <? 0 then false else default false (table !! Z.to_nat z)
  | NaN => false
  end.

(** The integers [lo, lo+1, ..., hi-1]: the values taken by the variable
    of [for (let i = lo; i < hi; i += 1)]. *)
Definition range (lo hi : Z) : list Z := seqZ lo (hi - lo).

(** A buffer as the engine keeps it: every entry is a byte. *)
Definition bytes (a : Uint8Array) : Prop := Forall (fun v => 0 <= v < 256) a.

(** A grid buffer: every entry is 0 or 1. *)
Definition binary (a : Uint8Array) : Prop := Forall (fun v => v = 0 \/ v = 1) a.

End JS.

(** ** The engine *)

Module GameOfLife.
Import JS.

Inductive PatternName : Type := glider | blinker | lwss | rPentomino.

Definition PATTERN_OFFSETS (name : PatternName) : list (Z * Z) :=
  match name with
  | glider => [(1, 0); (2, 1); (0, 2); (1, 2); (2, 2)]
  | blinker => [(-1, 0); (0, 0); (1, 0)]
  | lwss =>
      [(-2, -1); (-1, -1); (0, -1); (1, -1); (-3, 0); (1, 0); (1, 1);
       (-3, 2); (0, 2)]
  | rPentomino => [(0, -1); (1, -1); (-1, 0); (0, 0); (0, 1)]
  end.

Inductive RulePreset : Type := conway | highlife | seeds.

Record RuleTable : Type := { born : list bool; survive : list bool }.

Definition RULE_TABLES (r : RulePreset) : RuleTable :=
  match r with
  | conway =>
      {| born := [false; false; false; true; false; false; false; false; false];
         survive := [false; false; true; true; false; false; false; false; false] |}
  | highlife =>
      {| born := [false; false; false; true; false; false; true; false; false];
         survive := [false; false; true; true; false; false; false; false; false] |}
  | seeds =>
      {| born := [false; false; true; false; false; false; false; false; false];
         survive := [false; false; false; false; false; false; false; false; false] |}
  end.

Definition indexOf (x y : number) (cols : Z) : number :=
  add (mul y (Int cols)) x.

Definition createGrid (cols rows : Z) : result Uint8Array :=
  newUint8Array (cols * rows).

Definition getNeighborCount (grid : Uint8Array) (x y cols rows : Z)
    (wrapEdges : bool) : number :=
  foldl (fun neighbors dy =>
    foldl (fun neighbors dx =>
      if (dx =? 0) && (dy =? 0) then neighbors
      else if wrapEdges then
        let nx := rem (Int (x + dx + cols)) (Int cols) in
        let ny := rem (Int (y + dy + rows)) (Int rows) in
        add neighbors (toNumber (get grid (indexOf nx ny cols)))
      else
        let nx := x + dx in
        let ny := y + dy in
        if (nx <? 0) || (ny <? 0) || (nx >=? cols) || (ny >=? rows)
        then neighbors
        else add neighbors (toNumber (get grid (indexOf (Int nx) (Int ny) cols))))
      neighbors (range (-1) 2))
    (Int 0) (range (-1) 2).

Record Options : Type := { rule : RulePreset; wrapEdges : bool }.

(** The value assigned to [next[idx]] in the body of [stepGrid]. *)
Definition nextState (table : RuleTable) (alive : bool) (neighbors : number) : Z :=
  if alive
  then (if truthyAt table.(survive) neighbors then 1 else 0)
  else (if truthyAt table.(born) neighbors then 1 else 0).

Definition stepGrid (current : Uint8Array) (cols rows : Z) (options : Options)
    : result Uint8Array :=
  match createGrid cols rows with
  | Throw e => Throw e
  | Ok next =>
      let table := RULE_TABLES options.(rule) in
      Ok (foldl (fun next y =>
            foldl (fun next x =>
              let idx := indexOf (Int x) (Int y) cols in
              let neighbors :=
                getNeighborCount current x y cols rows options.(wrapEdges) in
              let alive := isOne (get current idx) in
              set next idx (nextState table alive neighbors))
            next (range 0 cols))
          next (range 0 rows))
  end.

(** [None] is [null]. *)
Definition normalizeCoord (value max : Z) (wrapEdges : bool) : option number :=
  if wrapEdges then Some (rem (Int (value + max)) (Int max))
  else if (value <? 0) || (value >=? max) then None
  else Some (Int value).

Definition applyBrush (grid : Uint8Array) (cols rows x y size : Z)
    (alive wrapEdges : bool) : Uint8Array :=
  let next := grid in
  let radius := Z.max 0 ((size - 1) / 2) in
  foldl (fun next dy =>
    foldl (fun next dx =>
      match normalizeCoord (x + dx) cols wrapEdges,
            normalizeCoord (y + dy) rows wrapEdges with
      | Some nx, Some ny => set next (indexOf nx ny cols) (if alive then 1 else 0)
      | _, _ => next
      end)
    next (range (- radius) (radius + 1)))
  next (range (- radius) (radius + 1)).

Definition stampPattern (grid : Uint8Array) (cols rows : Z) (name : PatternName)
    (cx cy : Z) (wrapEdges : bool) : Uint8Array :=
  let next := grid in
  let offsets := PATTERN_OFFSETS name in
  foldl (fun next '(px, py) =>
    match normalizeCoord (cx + px) cols wrapEdges,
          normalizeCoord (cy + py) rows wrapEdges with
    | Some x, Some y => set next (indexOf x y cols) 1
    | _, _ => next
    end)
  next offsets.

(** [stampPattern] with the default anchor and edge policy. *)
Definition stampPatternDefault (grid : Uint8Array) (cols rows : Z)
    (name : PatternName) : Uint8Array :=
  stampPattern grid cols rows name (cols / 2) (rows / 2) true.

Definition countLiveCells (grid : Uint8Array) : Z :=
  foldl (fun count i => count + default 0 (get grid (Int i)))
    0 (range 0 (Z.of_nat (length grid))).

Definition createHeatFromGrid (grid : Uint8Array) (maxHeat : Z) : Uint8Array :=
  let heat := replicate (length grid) 0 in
  foldl (fun heat i =>
    set heat (Int i) (if truthy (get grid (Int i)) then maxHeat else 0))
  heat (range 0 (Z.of_nat (length grid))).

(** The value assigned to [next[i]] in the body of [updateHeatMap]. *)
Definition nextHeat (previous current : option Z) (decay maxHeat : Z) : Z :=
  if truthy current then maxHeat
  else match previous with
       | Some p => if p >? decay then p - decay else 0
       | None => 0
       end.

Definition updateHeatMap (previous currentGrid : Uint8Array) (decay maxHeat : Z)
    : Uint8Array :=
  let next := replicate (length previous) 0 in
  foldl (fun next i =>
    set next (Int i)
      (nextHeat (get previous (Int i)) (get currentGrid (Int i)) decay maxHeat))
  next (range 0 (Z.of_nat (length previous))).

Record Diff : Type := { births : Z; deaths : Z }.

(** One iteration of the loop of [countBirthsAndDeaths]; [p] and [c] are
    the reads [previous[i]] and [current[i]]. *)
Definition diffStep (d : Diff) (p c : option Z) : Diff :=
  let d1 := if negb (truthy p) && truthy c
            then {| births := d.(births) + 1; deaths := d.(deaths) |} else d in
  if truthy p && negb (truthy c)
  then {| births := d1.(births); deaths := d1.(deaths) + 1 |} else d1.

Definition countBirthsAndDeaths (previous current : Uint8Array) : Diff :=
  foldl (fun d i => diffStep d (get previous (Int i)) (get current (Int i)))
    {| births := 0; deaths := 0 |} (range 0 (Z.of_nat (length previous))).

End GameOfLife.

Import JS GameOfLife.

(** ** Buffer reads and writes *)

Section Buffers.
Implicit Types (a : Uint8Array) (i : number) (j v : Z).

Lemma length_set a i v : length (set a i v) = length a.
Proof.
  destruct i as [|z]; simpl; [reflexivity|].
  destruct (z <? 0); [reflexivity|apply length_insert].
Qed.

Lemma get_set_eq a j v :
  0 <= j < Z.of_nat (length a) -> get (set a (Int j) v) (Int j) = Some (v mod 256).
Proof.
  intros Hj. simpl. destruct (Z.ltb_spec j 0) as [?|_]; [lia|].
  apply list_lookup_insert_eq. lia.
Qed.

Lemma get_set_ne a i j v : i <> Int j -> get (set a i v) (Int j) = get a (Int j).
Proof.
  intros Hne. destruct i as [|z]; simpl; [reflexivity|].
  destruct (Z.ltb_spec z 0) as [?|Hz]; [reflexivity|].
  destruct (Z.ltb_spec j 0) as [?|Hj]; [reflexivity|].
  apply list_lookup_insert_ne. intros E. apply Hne. f_equal. lia.
Qed.

Lemma get_in_range a j : 0 <= j < Z.of_nat (length a) -> is_Some (get a (Int j)).
Proof.
  intros Hj. simpl. destruct (Z.ltb_spec j 0) as [?|_]; [lia|].
  apply lookup_lt_is_Some_2. lia.
Qed.

Lemma get_Some_range a j v : get a (Int j) = Some v -> 0 <= j < Z.of_nat (length a).
Proof.
  simpl. destruct (Z.ltb_spec j 0) as [?|Hj]; [discriminate|].
  intros H. apply lookup_lt_Some in H. lia.
Qed.

Lemma get_replicate (n : nat) j :
  0 <= j < Z.of_nat n -> get (replicate n 0) (Int j) = Some 0.
Proof.
  intros Hj. simpl. destruct (Z.ltb_spec j 0) as [?|_]; [lia|].
  apply lookup_replicate_2. lia.
Qed.

Lemma get_binary a j v : binary a -> get a (Int j) = Some v -> v = 0 \/ v = 1.
Proof.
  unfold binary. rewrite Forall_forall. intros Hb. simpl.
  destruct (j <? 0); [discriminate|]. intros H.
  apply (Hb v). apply list_elem_of_lookup. eauto.
Qed.

Lemma get_bytes a j v : bytes a -> get a (Int j) = Some v -> 0 <= v < 256.
Proof.
  unfold bytes. rewrite Forall_forall. intros Hb. simpl.
  destruct (j <? 0); [discriminate|]. intros H.
  apply (Hb v). apply list_elem_of_lookup. eauto.
Qed.

(** Two buffers with the same length and the same reads are equal. *)
Lemma buffer_ext a b :
  length a = length b ->
  (forall j, 0 <= j < Z.of_nat (length a) -> get a (Int j) = get b (Int j)) ->
  a = b.
Proof.
  intros Hlen H. apply list_eq. intros n.
  destruct (decide (n < length a)%nat) as [Hn|Hn].
  - specialize (H (Z.of_nat n)). simpl in H.
    destruct (Z.ltb_spec (Z.of_nat n) 0) as [?|_]; [lia|].
    rewrite Nat2Z.id in H. apply H. lia.
  - rewrite !lookup_ge_None_2; [reflexivity| |]; lia.
Qed.

End Buffers.

(** ** Loops whose body is one buffer write

    Every loop of the engine that fills a buffer performs, per iteration, one
    assignment [next[idx] = value] with [idx] and [value] computed from the
    loop variables alone.  [idxf] and [valf] are those two computations. *)

Section WriteLoop.
Context {A : Type} (idxf : A -> number) (valf : A -> Z).

Definition writeLoop (items : list A) (next : Uint8Array) : Uint8Array :=
  foldl (fun next it => set next (idxf it) (valf it)) next items.

Lemma length_writeLoop items next : length (writeLoop items next) = length next.
Proof.
  revert next. induction items as [|it items IH]; intros next; [reflexivity|].
  change (length (writeLoop items (set next (idxf it) (valf it))) = length next).
  rewrite IH. apply length_set.
Qed.

(** An index no iteration writes keeps its value. *)
Lemma get_writeLoop_untouched items next j :
  (forall it, it ∈ items -> idxf it <> Int j) ->
  get (writeLoop items next) (Int j) = get next (Int j).
Proof.
  revert next. induction items as [|it items IH]; intros next Hno; [reflexivity|].
  change (get (writeLoop items (set next (idxf it) (valf it))) (Int j) = get next (Int j)).
  rewrite IH.
  - apply get_set_ne. apply Hno. left.
  - intros it' Hin. apply Hno. right. exact Hin.
Qed.

(** An index every iteration writes with the same value holds that value. *)
Lemma get_writeLoop_written items next j w :
  0 <= j < Z.of_nat (length next) ->
  (exists it, it ∈ items /\ idxf it = Int j) ->
  (forall it, it ∈ items -> idxf it = Int j -> valf it = w) ->
  get (writeLoop items next) (Int j) = Some (w mod 256).
Proof.
  revert next. induction items as [|it items IH]; intros next Hj [it0 [Hin Hidx]] Hval.
  - inversion Hin.
  - change (get (writeLoop items (set next (idxf it) (valf it))) (Int j)
            = Some (w mod 256)).
    destruct (decide (Exists (fun it' => idxf it' = Int j) items)) as [Hex|Hnex].
    + apply IH.
      * rewrite length_set. exact Hj.
      * apply Exists_exists in Hex. exact Hex.
      * intros it' Hin'. apply Hval. right. exact Hin'.
    + rewrite get_writeLoop_untouched.
      * assert (Hit : idxf it = Int j).
        { apply elem_of_cons in Hin as [->|Hin]; [exact Hidx|].
          exfalso. apply Hnex. apply Exists_exists. eauto. }
        rewrite Hit, get_set_eq by exact Hj.
        rewrite (Hval it); [reflexivity|left|exact Hit].
      * intros it' Hin' E. apply Hnex. apply Exists_exists. eauto.
Qed.

(** Every index either keeps its value or holds what some iteration wrote. *)
Lemma get_writeLoop_cases items next j :
  get (writeLoop items next) (Int j) = get next (Int j) \/
  exists it, it ∈ items /\ idxf it = Int j /\
    get (writeLoop items next) (Int j) = Some (valf it mod 256).
Proof.
  induction items as [|it items IH] using rev_ind; [left; reflexivity|].
  unfold writeLoop in *. rewrite foldl_snoc.
  set (b := foldl _ next items) in *.
  destruct (decide (idxf it = Int j)) as [E|Hne].
  - destruct (get b (Int j)) as [v|] eqn:Hb.
    + right. exists it. split; [apply elem_of_app; right; left|]. split; [exact E|].
      rewrite E. apply get_set_eq. eapply get_Some_range. exact Hb.
    + destruct IH as [IH|[it' [_ [_ IH]]]]; [|discriminate].
      left. rewrite <- IH, E. clear IH. simpl in *.
      destruct (j <? 0); [reflexivity|].
      rewrite list_insert_ge; [exact Hb|]. apply lookup_ge_None. exact Hb.
  - rewrite get_set_ne by exact Hne.
    destruct IH as [IH|[it' [Hin [Hidx IH]]]]; [left; exact IH|].
    right. exists it'. split; [apply elem_of_app; left; exact Hin|]. split; assumption.
Qed.

(** A nested loop is a single loop over the pairs of loop variables. *)
Lemma foldl_nested {B C T : Type} (f : T -> B -> C -> T) (ys : list B) (xs : list C) (s : T) :
  foldl (fun s y => foldl (fun s x => f s y x) s xs) s ys
  = foldl (fun s p => f s (fst p) (snd p)) s (ys ≫= fun y => pair y <$> xs).
Proof.
  revert s. induction ys as [|y ys IH]; intros s; [reflexivity|].
  simpl. rewrite foldl_app, foldl_fmap. simpl. apply IH.
Qed.

Lemma foldl_ext_in {B T : Type} (f g : T -> B -> T) (l : list B) (s : T) :
  (forall s b, b ∈ l -> f s b = g s b) -> foldl f s l = foldl g s l.
Proof.
  revert s. induction l as [|b l IH]; intros s H; [reflexivity|].
  simpl. rewrite H by left. apply IH. intros s' b' Hin. apply H. right. exact Hin.
Qed.

End WriteLoop.

(** ** Row-major indexing *)

Section Indexing.
Implicit Types (x y cols rows : Z).

Lemma indexOf_Int x y cols : indexOf (Int x) (Int y) cols = Int (y * cols + x).
Proof. reflexivity. Qed.

Lemma index_in_range x y cols rows :
  0 <= x < cols -> 0 <= y < rows -> 0 <= y * cols + x < cols * rows.
Proof. intros Hx Hy. nia. Qed.

Lemma index_inj x y x' y' cols :
  0 <= x < cols -> 0 <= x' < cols ->
  y * cols + x = y' * cols + x' -> x = x' /\ y = y'.
Proof.
  intros Hx Hx' E.
  assert (y = y') as ->.
  { destruct (Z.lt_trichotomy y y') as [H|[H|H]]; [exfalso|exact H|exfalso]; nia. }
  lia.
Qed.

(** Every index of the buffer is the index of one in-range cell. *)
Lemma index_cell j cols rows :
  0 <= j < cols * rows -> 0 < cols ->
  0 <= j mod cols < cols /\ 0 <= j / cols < rows /\ j = (j / cols) * cols + j mod cols.
Proof.
  intros Hj Hc.
  pose proof (Z.mod_pos_bound j cols Hc) as Hm.
  pose proof (Z.div_mod j cols ltac:(lia)) as Hd.
  assert (0 <= j / cols) by (apply Z.div_pos; lia).
  assert (j / cols < rows) by (apply Z.div_lt_upper_bound; lia).
  lia.
Qed.

Lemma elem_of_range k lo hi : k ∈ range lo hi <-> lo <= k < hi.
Proof. unfold range. rewrite elem_of_seqZ. lia. Qed.

Lemma range_empty lo hi : hi <= lo -> range lo hi = [].
Proof. intros H. unfold range. apply seqZ_nil. lia. Qed.

Lemma elem_of_cells (y x : Z) (ys xs : list Z) :
  (y, x) ∈ (ys ≫= fun y => pair y <$> xs) <-> y ∈ ys /\ x ∈ xs.
Proof.
  rewrite list_elem_of_bind. split.
  - intros [y' [Hin Hy]]. apply list_elem_of_fmap in Hin as [x' [E Hx]].
    inversion E; subst. split; assumption.
  - intros [Hy Hx]. exists y. split; [|exact Hy].
    apply list_elem_of_fmap. exists x. split; [reflexivity|exact Hx].
Qed.

End Indexing.

(** ** The generational transition, cell by cell *)

Section StepGrid.
Variables (current : Uint8Array) (cols rows : Z) (options : Options).

(** The next state of the cell at (x, y): the right-hand side of the
    assignment in the body of [stepGrid]. *)
Definition stepCell (x y : Z) : Z :=
  nextState (RULE_TABLES options.(rule))
    (isOne (get current (indexOf (Int x) (Int y) cols)))
    (getNeighborCount current x y cols rows options.(wrapEdges)).

Lemma nextState_bit table alive n : nextState table alive n = 0 \/ nextState table alive n = 1.
Proof.
  unfold nextState. destruct alive; [destruct (truthyAt _ _)|destruct (truthyAt _ _)]; auto.
Qed.

Lemma stepGrid_loop :
  stepGrid current cols rows options =
  match createGrid cols rows with
  | Throw e => Throw e
  | Ok next =>
      Ok (writeLoop (fun p => indexOf (Int (snd p)) (Int (fst p)) cols)
                    (fun p => stepCell (snd p) (fst p))
                    (range 0 rows ≫= fun y => pair y <$> range 0 cols) next)
  end.
Proof.
  unfold stepGrid. destruct (createGrid cols rows) as [next|e]; [|reflexivity].
  f_equal. unfold writeLoop.
  exact (foldl_nested
    (fun next y x => set next (indexOf (Int x) (Int y) cols) (stepCell x y)) _ _ next).
Qed.

Lemma createGrid_ok : 0 <= cols * rows ->
  createGrid cols rows = Ok (replicate (Z.to_nat (cols * rows)) 0).
Proof.
  intros H. unfold createGrid, newUint8Array.
  destruct (Z.ltb_spec (cols * rows) 0); [lia|reflexivity].
Qed.

(** On a grid with at least one cell, [stepGrid] returns a buffer of
    cols*rows cells whose entry for (x, y) is [stepCell x y]. *)
Lemma stepGrid_cells :
  0 < cols -> 0 < rows ->
  exists next,
    stepGrid current cols rows options = Ok next /\
    Z.of_nat (length next) = cols * rows /\
    forall x y, 0 <= x < cols -> 0 <= y < rows ->
      get next (Int (y * cols + x)) = Some (stepCell x y).
Proof.
  intros Hc Hr. rewrite stepGrid_loop, createGrid_ok by nia.
  eexists. split; [reflexivity|]. split.
  - rewrite length_writeLoop, length_replicate. nia.
  - intros x y Hx Hy.
    replace (stepCell x y) with (stepCell x y mod 256)
      by (unfold stepCell; destruct (nextState_bit (RULE_TABLES (rule options))
            (isOne (get current (indexOf (Int x) (Int y) cols)))
            (getNeighborCount current x y cols rows (wrapEdges options))) as [->| ->];
          reflexivity).
    apply get_writeLoop_written.
    + rewrite length_replicate. pose proof (index_in_range x y cols rows Hx Hy). lia.
    + exists (y, x). split; [|reflexivity].
      apply elem_of_cells. rewrite !elem_of_range. lia.
    + intros [y' x'] Hin. apply elem_of_cells in Hin as [_ Hx'].
      apply elem_of_range in Hx'. simpl. intros E. inversion E as [E'].
      apply index_inj in E' as [-> ->]; [reflexivity|lia|lia].
Qed.

(** Without any cell to visit the fresh all-zero buffer is returned. *)
Lemma stepGrid_no_cell :
  0 <= cols * rows -> cols <= 0 \/ rows <= 0 ->
  stepGrid current cols rows options = Ok (replicate (Z.to_nat (cols * rows)) 0).
Proof.
  intros Hlen Hdeg. rewrite stepGrid_loop, createGrid_ok by exact Hlen. f_equal.
  replace (range 0 rows ≫= fun y => pair y <$> range 0 cols) with (@nil (Z * Z));
    [reflexivity|].
  destruct Hdeg as [Hc|Hr].
  - rewrite (range_empty 0 cols) by lia.
    induction (range 0 rows) as [|y ys IH]; [reflexivity|exact IH].
  - rewrite (range_empty 0 rows) by lia. reflexivity.
Qed.

End StepGrid.

(** ** Counting neighbours *)

Section NeighborCount.
Variables (grid : Uint8Array) (x y cols rows : Z) (wrapEdges : bool).

(** One iteration of the inner loop of [getNeighborCount]. *)
Definition visit (neighbors : number) (dy dx : Z) : number :=
  if (dx =? 0) && (dy =? 0) then neighbors
  else if wrapEdges then
    let nx := rem (Int (x + dx + cols)) (Int cols) in
    let ny := rem (Int (y + dy + rows)) (Int rows) in
    add neighbors (toNumber (get grid (indexOf nx ny cols)))
  else
    let nx := x + dx in
    let ny := y + dy in
    if (nx <? 0) || (ny <? 0) || (nx >=? cols) || (ny >=? rows)
    then neighbors
    else add neighbors (toNumber (get grid (indexOf (Int nx) (Int ny) cols))).

Lemma getNeighborCount_visits :
  getNeighborCount grid x y cols rows wrapEdges =
  visit (visit (visit
    (visit (visit (visit
      (visit (visit (visit (Int 0) (-1) (-1)) (-1) 0) (-1) 1)
      0 (-1)) 0 0) 0 1)
    1 (-1)) 1 0) 1 1.
Proof. reflexivity. Qed.

Lemma visit_center neighbors : visit neighbors 0 0 = neighbors.
Proof. reflexivity. Qed.

Lemma rem_nonneg v max : 0 <= v -> 0 < max ->
  rem (Int v) (Int max) = Int (v mod max) /\ 0 <= v mod max < max.
Proof.
  intros Hv Hm. simpl. destruct (Z.eqb_spec max 0) as [?|_]; [lia|].
  rewrite Z.rem_mod_nonneg by lia. split; [reflexivity|].
  apply Z.mod_pos_bound. exact Hm.
Qed.

Hypothesis Hlen : Z.of_nat (length grid) = cols * rows.
Hypothesis Hx : 0 <= x < cols.
Hypothesis Hy : 0 <= y < rows.

(** A visited offset adds the value of one cell of the buffer, or nothing. *)
Lemma visit_adds n dy dx :
  -1 <= dx <= 1 -> -1 <= dy <= 1 ->
  visit (Int n) dy dx = Int n \/
  exists j v, get grid (Int j) = Some v /\ visit (Int n) dy dx = Int (n + v).
Proof.
  intros Hdx Hdy. unfold visit.
  destruct ((dx =? 0) && (dy =? 0)); [left; reflexivity|].
  destruct wrapEdges.
  - destruct (rem_nonneg (x + dx + cols) cols) as [-> Hnx]; [lia|lia|].
    destruct (rem_nonneg (y + dy + rows) rows) as [-> Hny]; [lia|lia|].
    rewrite indexOf_Int.
    pose proof (index_in_range _ _ cols rows Hnx Hny) as Hj.
    destruct (get_in_range grid _ ltac:(rewrite Hlen; exact Hj)) as [v Hv].
    right. eexists _, v. split; [exact Hv|]. rewrite Hv. reflexivity.
  - destruct (_ || _) eqn:Hout; [left; reflexivity|].
    rewrite indexOf_Int.
    assert (Hnx : 0 <= x + dx < cols) by lia.
    assert (Hny : 0 <= y + dy < rows) by lia.
    pose proof (index_in_range _ _ cols rows Hnx Hny) as Hj.
    destruct (get_in_range grid _ ltac:(rewrite Hlen; exact Hj)) as [v Hv].
    right. eexists _, v. split; [exact Hv|]. rewrite Hv. reflexivity.
Qed.

(** When every cell value lies in [lo, hi], with lo <= 0 <= hi, the count is
    a number between 8*lo and 8*hi. *)
Lemma getNeighborCount_bounds lo hi :
  lo <= 0 <= hi ->
  (forall j v, get grid (Int j) = Some v -> lo <= v <= hi) ->
  exists n, getNeighborCount grid x y cols rows wrapEdges = Int n /\
            8 * lo <= n <= 8 * hi.
Proof.
  intros H0 Hcell.
  assert (Hstep : forall n dy dx, -1 <= dx <= 1 -> -1 <= dy <= 1 ->
            exists k, visit (Int n) dy dx = Int (n + k) /\ lo <= k <= hi).
  { intros n dy dx Hdx Hdy.
    destruct (visit_adds n dy dx Hdx Hdy) as [E|(j & v & Hv & E)].
    - exists 0. rewrite E, Z.add_0_r. split; [reflexivity|exact H0].
    - exists v. split; [exact E|]. eapply Hcell. exact Hv. }
  rewrite getNeighborCount_visits.
  destruct (Hstep 0 (-1) (-1)) as (k1 & -> & H1); [lia|lia|].
  destruct (Hstep (0 + k1) (-1) 0) as (k2 & -> & H2); [lia|lia|].
  destruct (Hstep (0 + k1 + k2) (-1) 1) as (k3 & -> & H3); [lia|lia|].
  destruct (Hstep (0 + k1 + k2 + k3) 0 (-1)) as (k4 & -> & H4); [lia|lia|].
  rewrite visit_center.
  destruct (Hstep (0 + k1 + k2 + k3 + k4) 0 1) as (k5 & -> & H5); [lia|lia|].
  destruct (Hstep (0 + k1 + k2 + k3 + k4 + k5) 1 (-1)) as (k6 & -> & H6); [lia|lia|].
  destruct (Hstep (0 + k1 + k2 + k3 + k4 + k5 + k6) 1 0) as (k7 & -> & H7); [lia|lia|].
  destruct (Hstep (0 + k1 + k2 + k3 + k4 + k5 + k6 + k7) 1 1) as (k8 & -> & H8); [lia|lia|].
  eexists. split; [reflexivity|lia].
Qed.

End NeighborCount.

(** ** The live Moore neighbours, as the specification counts them

    Written from the description of the neighbour counter, not from the
    loop: the eight Moore offsets; with wrapped edges each offset is taken
    modulo the dimensions (the mathematical modulo, always in range) and
    always contributes a neighbour; with bounded edges an offset that lands
    outside the grid is skipped.  A neighbour counts when its cell holds 1. *)

Definition mooreOffsets : list (Z * Z) :=
  [(-1, -1); (0, -1); (1, -1); (-1, 0); (1, 0); (-1, 1); (0, 1); (1, 1)].

(** The state of the cell (x, y) of a row-major grid. *)
Definition cellAt (grid : Uint8Array) (cols x y : Z) : Z :=
  default 0 (grid !! Z.to_nat (y * cols + x)).

(** Whether the neighbour of (x, y) at offset [d] exists and is alive. *)
Definition liveAt (grid : Uint8Array) (cols rows : Z) (wrap : bool) (x y : Z)
    (d : Z * Z) : bool :=
  if wrap
  then cellAt grid cols ((x + fst d) mod cols) ((y + snd d) mod rows) =? 1
  else if decide (0 <= x + fst d < cols /\ 0 <= y + snd d < rows)
       then cellAt grid cols (x + fst d) (y + snd d) =? 1
       else false.

(** The number of live Moore neighbours of (x, y). *)
Definition liveNeighbors (grid : Uint8Array) (cols rows : Z) (wrap : bool)
    (x y : Z) : Z :=
  Z.of_nat (length (filter (fun d => liveAt grid cols rows wrap x y d = true)
                      mooreOffsets)).

Section LiveNeighbors.
Variables (grid : Uint8Array) (x y cols rows : Z) (wrap : bool).
Hypothesis Hlen : Z.of_nat (length grid) = cols * rows.
Hypothesis Hbin : binary grid.
Hypothesis Hx : 0 <= x < cols.
Hypothesis Hy : 0 <= y < rows.

Lemma get_cellAt a b : 0 <= a < cols -> 0 <= b < rows ->
  get grid (Int (b * cols + a)) = Some (cellAt grid cols a b) /\
  (cellAt grid cols a b = 0 \/ cellAt grid cols a b = 1).
Proof.
  intros Ha Hb. pose proof (index_in_range a b cols rows Ha Hb) as Hj.
  destruct (get_in_range grid (b * cols + a) ltac:(lia)) as [v Hv].
  pose proof (get_binary _ _ _ Hbin Hv) as Hbit.
  assert (cellAt grid cols a b = v) as ->; [|split; assumption].
  unfold cellAt. simpl in Hv. destruct (Z.ltb_spec (b * cols + a) 0); [lia|].
  rewrite Hv. reflexivity.
Qed.

(** Each iteration of the loop adds 1 exactly when the specification's
    neighbour at that offset is alive. *)
Lemma visit_liveAt n dy dx :
  -1 <= dx <= 1 -> -1 <= dy <= 1 -> (dx =? 0) && (dy =? 0) = false ->
  visit grid x y cols rows wrap (Int n) dy dx
  = Int (n + if liveAt grid cols rows wrap x y (dx, dy) then 1 else 0).
Proof.
  intros Hdx Hdy Hc. unfold visit, liveAt. rewrite Hc. simpl fst. simpl snd.
  destruct wrap.
  - destruct (rem_nonneg (x + dx + cols) cols) as [-> Hnx]; [lia|lia|].
    destruct (rem_nonneg (y + dy + rows) rows) as [-> Hny]; [lia|lia|].
    replace (x + dx + cols) with (x + dx + 1 * cols) in * by lia.
    replace (y + dy + rows) with (y + dy + 1 * rows) in * by lia.
    rewrite !Z.mod_add in * by lia. rewrite indexOf_Int.
    destruct (get_cellAt _ _ Hnx Hny) as [-> [-> | ->]]; reflexivity.
  - destruct (decide _) as [Hin|Hout].
    + destruct (_ || _) eqn:E; [lia|]. rewrite indexOf_Int.
      destruct (get_cellAt (x + dx) (y + dy)) as [-> [-> | ->]]; try lia; reflexivity.
    + destruct (_ || _) eqn:E; [f_equal; lia|]. exfalso. apply Hout. lia.
Qed.

(** The loop of [getNeighborCount] computes the specification's count. *)
Lemma getNeighborCount_liveNeighbors :
  getNeighborCount grid x y cols rows wrap = Int (liveNeighbors grid cols rows wrap x y).
Proof.
  rewrite getNeighborCount_visits, visit_center.
  rewrite !visit_liveAt by (reflexivity || lia).
  f_equal. unfold liveNeighbors, mooreOffsets.
  repeat match goal with
  | |- context [filter _ (?d :: _)] =>
      destruct (liveAt grid cols rows wrap x y d) eqn:?;
      [rewrite filter_cons_True by assumption
      |rewrite filter_cons_False by congruence]
  end; reflexivity.
Qed.

End LiveNeighbors.

(** ** Rule tables *)

Lemma conway_born n : 0 <= n <= 8 ->
  truthyAt (born (RULE_TABLES conway)) (Int n) = (n =? 3).
Proof.
  intros Hn.
  assert (n = 0 \/ n = 1 \/ n = 2 \/ n = 3 \/ n = 4 \/ n = 5 \/ n = 6 \/ n = 7 \/ n = 8)
    as H by lia.
  repeat (destruct H as [->|H]; [reflexivity|]). subst n. reflexivity.
Qed.

Lemma conway_survive n : 0 <= n <= 8 ->
  truthyAt (survive (RULE_TABLES conway)) (Int n) = ((n =? 2) || (n =? 3)).
Proof.
  intros Hn.
  assert (n = 0 \/ n = 1 \/ n = 2 \/ n = 3 \/ n = 4 \/ n = 5 \/ n = 6 \/ n = 7 \/ n = 8)
    as H by lia.
  repeat (destruct H as [->|H]; [reflexivity|]). subst n. reflexivity.
Qed.

Lemma seeds_survive n : truthyAt (survive (RULE_TABLES seeds)) n = false.
Proof.
  destruct n as [|z]; [reflexivity|]. simpl.
  destruct (z <? 0); [reflexivity|].
  generalize (Z.to_nat z). intros k.
  do 9 (destruct k as [|k]; [reflexivity|]). reflexivity.
Qed.

Lemma born_zero r : truthyAt (born (RULE_TABLES r)) (Int 0) = false.
Proof. destruct r; reflexivity. Qed.

(** The driver's repeated calls: [k] generations from [grid]. *)
Fixpoint stepGridTimes (k : nat) (grid : Uint8Array) (cols rows : Z)
    (options : Options) : result Uint8Array :=
  match k with
  | O => Ok grid
  | S k' =>
      match stepGrid grid cols rows options with
      | Ok next => stepGridTimes k' next cols rows options
      | Throw e => Throw e
      end
  end.

(** The all-dead buffer of [len] cells. *)
Definition allDead (len : Z) : Uint8Array := replicate (Z.to_nat len) 0.

Lemma stepGrid_allDead r wrap cols rows :
  0 <= cols * rows ->
  stepGrid (allDead (cols * rows)) cols rows {| rule := r; wrapEdges := wrap |}
  = Ok (allDead (cols * rows)).
Proof.
  intros Hlen. set (options := {| rule := r; wrapEdges := wrap |}).
  destruct (decide (cols <= 0 \/ rows <= 0)) as [Hdeg|Hpos].
  { apply stepGrid_no_cell; assumption. }
  assert (Hc : 0 < cols) by lia. assert (Hr : 0 < rows) by lia.
  destruct (stepGrid_cells (allDead (cols * rows)) cols rows options Hc Hr)
    as (next & -> & Hnlen & Hcells).
  f_equal. apply buffer_ext.
  - unfold allDead. rewrite length_replicate. lia.
  - intros j Hj. rewrite Hnlen in Hj.
    destruct (index_cell j cols rows Hj Hc) as (Hx & Hy & Ej).
    replace (get (allDead (cols * rows)) (Int j)) with (Some 0)
      by (symmetry; apply get_replicate; lia).
    rewrite Ej at 1. rewrite Hcells by assumption. f_equal.
    unfold stepCell. rewrite indexOf_Int, <- Ej.
    replace (get (allDead (cols * rows)) (Int j)) with (Some 0)
      by (symmetry; apply get_replicate; lia).
    simpl isOne. change (wrapEdges options) with wrap.
    destruct (getNeighborCount_bounds (allDead (cols * rows)) (j mod cols) (j / cols)
                cols rows wrap) with (lo := 0) (hi := 0) as (n & -> & Hn).
    + unfold allDead. rewrite length_replicate. lia.
    + exact Hx.
    + exact Hy.
    + lia.
    + intros i v Hv. pose proof (get_Some_range _ _ _ Hv) as Hi.
      unfold allDead in Hv, Hi. rewrite length_replicate in Hi.
      rewrite get_replicate in Hv by lia. inversion Hv. lia.
    + replace n with 0 by lia. unfold nextState. simpl rule. rewrite born_zero.
      reflexivity.
Qed.

(** * Properties of the engine *)

(** C1. Conway transition: for a grid of cols*rows cells with entries in
    {0,1}, an in-range cell (x, y) and either edge policy, [stepGrid] under
    the conway preset returns a grid, the count [getNeighborCount] computes
    for the cell on the input grid is its number n of live Moore neighbours
    (as the specification counts them, between 0 and 8), and the cell's next
    state is determined by n: a dead cell becomes alive iff n = 3, a live
    cell stays alive iff n = 2 or n = 3. *)
Theorem conway_transition (current : Uint8Array) (cols rows x y : Z) (wrap : bool) :
  Z.of_nat (length current) = cols * rows ->
  binary current ->
  0 <= x < cols -> 0 <= y < rows ->
  exists next n c,
    stepGrid current cols rows {| rule := conway; wrapEdges := wrap |} = Ok next /\
    n = liveNeighbors current cols rows wrap x y /\
    getNeighborCount current x y cols rows wrap = Int n /\ 0 <= n <= 8 /\
    get current (indexOf (Int x) (Int y) cols) = Some c /\ (c = 0 \/ c = 1) /\
    (c = 0 -> get next (indexOf (Int x) (Int y) cols)
              = Some (if n =? 3 then 1 else 0)) /\
    (c = 1 -> get next (indexOf (Int x) (Int y) cols)
              = Some (if (n =? 2) || (n =? 3) then 1 else 0)).
Proof.
  intros Hlen Hbin Hx Hy.
  set (options := {| rule := conway; wrapEdges := wrap |}).
  destruct (stepGrid_cells current cols rows options) as (next & Hstep & _ & Hcells);
    [lia|lia|].
  destruct (getNeighborCount_bounds current x y cols rows wrap Hlen Hx Hy 0 1)
    as (n & Hn & Hn8); [lia| |].
  { intros j v Hv. destruct (get_binary _ _ _ Hbin Hv); lia. }
  assert (Hspec : n = liveNeighbors current cols rows wrap x y).
  { pose proof (getNeighborCount_liveNeighbors current x y cols rows wrap
                  Hlen Hbin Hx Hy) as E.
    rewrite Hn in E. inversion E. reflexivity. }
  rewrite indexOf_Int.
  destruct (get_in_range current (y * cols + x)) as [c Hc].
  { rewrite Hlen. apply index_in_range; assumption. }
  exists next, n, c. split; [exact Hstep|]. split; [exact Hspec|].
  split; [exact Hn|]. split; [lia|].
  split; [exact Hc|]. split; [exact (get_binary _ _ _ Hbin Hc)|].
  rewrite Hcells by assumption. unfold stepCell. rewrite indexOf_Int, Hc.
  simpl wrapEdges. rewrite Hn. unfold nextState. simpl rule.
  rewrite conway_born, conway_survive by lia.
  split; intros ->; reflexivity.
Qed.

Lemma conway_transition_witness :
  exists next n c,
    stepGrid [0; 1; 0; 0; 1; 0; 0; 1; 0] 3 3 {| rule := conway; wrapEdges := false |}
      = Ok next /\
    n = liveNeighbors [0; 1; 0; 0; 1; 0; 0; 1; 0] 3 3 false 0 1 /\
    getNeighborCount [0; 1; 0; 0; 1; 0; 0; 1; 0] 0 1 3 3 false = Int n /\ 0 <= n <= 8 /\
    get [0; 1; 0; 0; 1; 0; 0; 1; 0] (indexOf (Int 0) (Int 1) 3) = Some c /\
    (c = 0 \/ c = 1) /\
    (c = 0 -> get next (indexOf (Int 0) (Int 1) 3) = Some (if n =? 3 then 1 else 0)) /\
    (c = 1 -> get next (indexOf (Int 0) (Int 1) 3)
              = Some (if (n =? 2) || (n =? 3) then 1 else 0)).
Proof.
  apply (conway_transition [0; 1; 0; 0; 1; 0; 0; 1; 0] 3 3 0 1 false).
  - reflexivity.
  - unfold binary. repeat constructor; lia.
  - lia.
  - lia.
Defined.

(** C2. Blinker oscillation: on the empty 8x8 grid, stamping the blinker at
    the default centre anchor (wrapping edges) and stepping twice under the
    conway preset with wrapped edges gives back the stamped grid; one step
    alone does not. *)
Theorem blinker_period_two :
  exists empty stamped g1,
    createGrid 8 8 = Ok empty /\
    stamped = stampPatternDefault empty 8 8 blinker /\
    stepGrid stamped 8 8 {| rule := conway; wrapEdges := true |} = Ok g1 /\
    stepGrid g1 8 8 {| rule := conway; wrapEdges := true |} = Ok stamped /\
    g1 <> stamped.
Proof.
  eexists _, _, _. split; [reflexivity|]. split; [reflexivity|].
  split; [vm_compute; reflexivity|]. split; [vm_compute; reflexivity|].
  vm_compute. discriminate.
Qed.

(** C3. Empty-grid fixpoint: for each of the three presets born[0] is false,
    and for either edge policy and all dimensions (any cols, rows for which a
    buffer of cols*rows cells exists) [stepGrid] maps the all-dead grid to the
    all-dead grid, and so does any number of steps. *)
Theorem empty_grid_fixpoint (r : RulePreset) (wrap : bool) (cols rows : Z) (k : nat) :
  0 <= cols * rows ->
  born (RULE_TABLES r) !! 0%nat = Some false /\
  stepGrid (allDead (cols * rows)) cols rows {| rule := r; wrapEdges := wrap |}
    = Ok (allDead (cols * rows)) /\
  stepGridTimes k (allDead (cols * rows)) cols rows {| rule := r; wrapEdges := wrap |}
    = Ok (allDead (cols * rows)).
Proof.
  intros Hlen. split; [destruct r; reflexivity|].
  split; [apply stepGrid_allDead; exact Hlen|].
  induction k as [|k IH]; [reflexivity|].
  simpl. rewrite stepGrid_allDead by exact Hlen. exact IH.
Qed.

Lemma empty_grid_fixpoint_witness :
  born (RULE_TABLES highlife) !! 0%nat = Some false /\
  stepGrid (allDead (4 * 3)) 4 3 {| rule := highlife; wrapEdges := true |}
    = Ok (allDead (4 * 3)) /\
  stepGridTimes 5 (allDead (4 * 3)) 4 3 {| rule := highlife; wrapEdges := true |}
    = Ok (allDead (4 * 3)).
Proof. apply (empty_grid_fixpoint highlife true 4 3 5). lia. Defined.

(** C9. Seeds: for a grid of cols*rows cells, whatever the dimensions and
    the edge policy, [stepGrid] under the seeds preset returns a grid in
    which every cell that is alive in the input is dead. *)
Theorem seeds_live_cells_die (current : Uint8Array) (cols rows : Z) (wrap : bool) :
  Z.of_nat (length current) = cols * rows ->
  exists next,
    stepGrid current cols rows {| rule := seeds; wrapEdges := wrap |} = Ok next /\
    forall j, get current (Int j) = Some 1 -> get next (Int j) = Some 0.
Proof.
  intros Hlen. set (options := {| rule := seeds; wrapEdges := wrap |}).
  destruct (decide (cols <= 0 \/ rows <= 0)) as [Hdeg|Hpos].
  - eexists. split; [apply stepGrid_no_cell; [lia|exact Hdeg]|].
    intros j Hj. apply get_Some_range in Hj. apply get_replicate. lia.
  - assert (Hc : 0 < cols) by lia. assert (Hr : 0 < rows) by lia.
    destruct (stepGrid_cells current cols rows options Hc Hr)
      as (next & Hstep & _ & Hcells).
    exists next. split; [exact Hstep|]. intros j Hj.
    pose proof (get_Some_range _ _ _ Hj) as Hrange. rewrite Hlen in Hrange.
    destruct (index_cell j cols rows Hrange Hc) as (Hx & Hy & Ej).
    rewrite Ej at 1. rewrite Hcells by assumption. f_equal.
    unfold stepCell. rewrite indexOf_Int, <- Ej, Hj. simpl isOne.
    unfold nextState. simpl rule. rewrite seeds_survive. reflexivity.
Qed.

Lemma seeds_live_cells_die_witness :
  exists next,
    stepGrid [1; 1; 0; 0; 0; 0] 3 2 {| rule := seeds; wrapEdges := true |} = Ok next /\
    forall j, get [1; 1; 0; 0; 0; 0] (Int j) = Some 1 -> get next (Int j) = Some 0.
Proof.
  apply (seeds_live_cells_die [1; 1; 0; 0; 0; 0] 3 2 true). reflexivity.
Defined.

(** ** A single live cell in the far corner *)

Section LoneCorner.
Variables (N : Z) (g : Uint8Array).
Hypothesis HN : 1 <= N.
Hypothesis Hcells : forall x y, 0 <= x < N -> 0 <= y < N ->
  get g (indexOf (Int x) (Int y) N) = Some (if (x =? N - 1) && (y =? N - 1) then 1 else 0).

(** With wrapped edges every offset but the centre adds the cell it lands on. *)
Lemma corner_visit_wrap n dy dx :
  -1 <= dx <= 1 -> -1 <= dy <= 1 -> (dx =? 0) && (dy =? 0) = false ->
  visit g 0 0 N N true (Int n) dy dx =
  Int (n + (if ((0 + dx + N) mod N =? N - 1) && ((0 + dy + N) mod N =? N - 1)
            then 1 else 0)).
Proof.
  intros Hdx Hdy Hc. unfold visit. rewrite Hc.
  destruct (rem_nonneg (0 + dx + N) N) as [-> Hnx]; [lia|lia|].
  destruct (rem_nonneg (0 + dy + N) N) as [-> Hny]; [lia|lia|].
  rewrite Hcells by assumption. reflexivity.
Qed.

(** With bounded edges, unless N = 2, no offset adds anything. *)
Lemma corner_visit_bounded n dy dx :
  N <> 2 -> -1 <= dx <= 1 -> -1 <= dy <= 1 ->
  visit g 0 0 N N false (Int n) dy dx = Int n.
Proof.
  intros HN2 Hdx Hdy. unfold visit.
  destruct ((dx =? 0) && (dy =? 0)) eqn:Hc; [reflexivity|].
  destruct (_ || _) eqn:Hout; [reflexivity|].
  rewrite Hcells by lia.
  destruct ((0 + dx =? N - 1) && (0 + dy =? N - 1)) eqn:E; [exfalso; lia|].
  simpl. f_equal. lia.
Qed.

Lemma corner_count_wrap :
  exists n, getNeighborCount g 0 0 N N true = Int n /\ 0 < n.
Proof.
  rewrite getNeighborCount_visits, visit_center.
  rewrite !corner_visit_wrap by (reflexivity || lia).
  eexists. split; [reflexivity|].
  replace (0 + -1 + N) with (N - 1) by lia.
  rewrite (Z.mod_small (N - 1) N) by lia.
  rewrite Z.eqb_refl. simpl andb. change (if true then 1 else 0) with 1.
  repeat match goal with |- context [if ?b then 1 else 0] => destruct b end; lia.
Qed.

Lemma corner_count_bounded : N <> 2 -> getNeighborCount g 0 0 N N false = Int 0.
Proof.
  intros HN2. rewrite getNeighborCount_visits.
  rewrite !corner_visit_bounded by (exact HN2 || lia). reflexivity.
Qed.

End LoneCorner.

(** C4 (as amended). On an N x N grid, N >= 1, whose only live cell is
    (N-1, N-1), the neighbour count of (0, 0) with wrapped edges is positive;
    with bounded edges it is 0 unless N = 2, and for N = 2, where (1, 1) is
    an ordinary diagonal neighbour of (0, 0), it is 1. *)
Theorem wrap_counts_far_corner (N : Z) (g : Uint8Array) :
  1 <= N ->
  Z.of_nat (length g) = N * N ->
  (forall x y, 0 <= x < N -> 0 <= y < N ->
     get g (indexOf (Int x) (Int y) N)
     = Some (if (x =? N - 1) && (y =? N - 1) then 1 else 0)) ->
  (exists n, getNeighborCount g 0 0 N N true = Int n /\ 0 < n) /\
  (N <> 2 -> getNeighborCount g 0 0 N N false = Int 0) /\
  (N = 2 -> getNeighborCount g 0 0 N N false = Int 1).
Proof.
  intros HN Hlen Hcells. split; [|split].
  - apply corner_count_wrap; assumption.
  - apply corner_count_bounded; assumption.
  - intros ->. assert (g = [0; 0; 0; 1]) as ->; [|reflexivity].
    apply buffer_ext; [simpl; lia|].
    intros j Hj. rewrite Hlen in Hj.
    assert (j = 0 \/ j = 1 \/ j = 2 \/ j = 3) as [->|[->|[->| ->]]] by lia.
    + exact (Hcells 0 0 ltac:(lia) ltac:(lia)).
    + exact (Hcells 1 0 ltac:(lia) ltac:(lia)).
    + exact (Hcells 0 1 ltac:(lia) ltac:(lia)).
    + exact (Hcells 1 1 ltac:(lia) ltac:(lia)).
Qed.

Lemma wrap_counts_far_corner_witness :
  (exists n, getNeighborCount [0; 0; 0; 0; 0; 0; 0; 0; 1] 0 0 3 3 true = Int n /\ 0 < n) /\
  (3 <> 2 -> getNeighborCount [0; 0; 0; 0; 0; 0; 0; 0; 1] 0 0 3 3 false = Int 0) /\
  (3 = 2 -> getNeighborCount [0; 0; 0; 0; 0; 0; 0; 0; 1] 0 0 3 3 false = Int 1).
Proof.
  apply (wrap_counts_far_corner 3 [0; 0; 0; 0; 0; 0; 0; 0; 1]).
  - lia.
  - reflexivity.
  - intros x y Hx Hy.
    assert (x = 0 \/ x = 1 \/ x = 2) as [->|[->| ->]] by lia;
    assert (y = 0 \/ y = 1 \/ y = 2) as [->|[->| ->]] by lia; reflexivity.
Defined.

(** C4 as stated fails for N = 2: the 2 x 2 grid whose only live cell is
    (1, 1) meets the premises, and with bounded edges the count of (0, 0) is
    1, not 0. *)
Lemma bounded_corner_adjacent_when_N_is_2 :
  Z.of_nat (length [0; 0; 0; 1]) = 2 * 2 /\
  get [0; 0; 0; 1] (indexOf (Int (2 - 1)) (Int (2 - 1)) 2) = Some 1 /\
  getNeighborCount [0; 0; 0; 1] 0 0 2 2 false = Int 1 /\
  getNeighborCount [0; 0; 0; 1] 0 0 2 2 false <> Int 0.
Proof. repeat split; try reflexivity. discriminate. Qed.

(** ** Loops over the indices of a buffer *)

Section IndexedLoops.

Lemma range_0_succ (n : nat) :
  range 0 (Z.of_nat (S n)) = 0 :: (Z.add 1 <$> range 0 (Z.of_nat n)).
Proof.
  unfold range. rewrite seqZ_cons by lia. f_equal.
  rewrite fmap_add_seqZ. f_equal; lia.
Qed.

Lemma get_cons_shift v (a : Uint8Array) i :
  0 <= i -> get (v :: a) (Int (1 + i)) = get a (Int i).
Proof.
  intros Hi. simpl.
  destruct (Z.ltb_spec (1 + i) 0); [lia|]. destruct (Z.ltb_spec i 0); [lia|].
  replace (Z.to_nat (1 + i)) with (S (Z.to_nat i)) by lia. reflexivity.
Qed.

Lemma get_nil i : get [] i = None.
Proof. destruct i as [|z]; [reflexivity|]. simpl. destruct (z <? 0); reflexivity. Qed.

(** A pass over two buffers in step; a missing entry of [current] reads as
    [undefined]. *)
Fixpoint fold2 {T : Type} (f : T -> option Z -> option Z -> T) (s : T)
    (previous current : Uint8Array) : T :=
  match previous with
  | [] => s
  | p :: ps => fold2 f (f s (Some p) (head current)) ps (tail current)
  end.

Lemma foldl_paired {T : Type} (f : T -> option Z -> option Z -> T) s previous current :
  foldl (fun s i => f s (get previous (Int i)) (get current (Int i))) s
        (range 0 (Z.of_nat (length previous)))
  = fold2 f s previous current.
Proof.
  revert s current. induction previous as [|p ps IH]; intros s current; [reflexivity|].
  change (length (p :: ps)) with (S (length ps)). rewrite range_0_succ.
  cbn [foldl]. rewrite foldl_fmap. cbn [fold2]. rewrite <- IH.
  replace (get current (Int 0)) with (head current) by (destruct current; reflexivity).
  change (get (p :: ps) (Int 0)) with (Some p).
  apply foldl_ext_in. intros s' i Hi. apply elem_of_range in Hi.
  rewrite get_cons_shift by lia. f_equal.
  destruct current as [|c cs]; [rewrite !get_nil; reflexivity|].
  simpl tail. apply get_cons_shift. lia.
Qed.

End IndexedLoops.

(** ** Heat *)

Section Heat.
Variables (decay maxHeat : Z).

Lemma length_updateHeatMap previous currentGrid :
  length (updateHeatMap previous currentGrid decay maxHeat) = length previous.
Proof.
  transitivity (length (replicate (length previous) 0)); [|apply length_replicate].
  exact (length_writeLoop Int
    (fun i => nextHeat (get previous (Int i)) (get currentGrid (Int i)) decay maxHeat)
    _ _).
Qed.

Lemma get_updateHeatMap previous currentGrid i :
  0 <= i < Z.of_nat (length previous) ->
  get (updateHeatMap previous currentGrid decay maxHeat) (Int i)
  = Some (nextHeat (get previous (Int i)) (get currentGrid (Int i)) decay maxHeat mod 256).
Proof.
  intros Hi. unfold updateHeatMap.
  apply (get_writeLoop_written Int
    (fun i => nextHeat (get previous (Int i)) (get currentGrid (Int i)) decay maxHeat)).
  - rewrite length_replicate. exact Hi.
  - exists i. split; [apply elem_of_range; lia|reflexivity].
  - intros i' _ E. inversion E. reflexivity.
Qed.

(** Consecutive updates of a heat buffer, one per generation. *)
Definition updateHeatMapEach (heat : Uint8Array) (grids : list Uint8Array) : Uint8Array :=
  foldl (fun heat grid => updateHeatMap heat grid decay maxHeat) heat grids.

Hypothesis Hdecay : 0 <= decay.

Lemma nextHeat_dead p c : 0 <= p < 256 -> c = 0 ->
  nextHeat (Some p) (Some c) decay maxHeat mod 256 = Z.max (p - decay) 0.
Proof.
  intros Hp ->. unfold nextHeat. simpl truthy.
  destruct (Z.gtb_spec p decay).
  - rewrite Z.mod_small by lia. lia.
  - rewrite Z.mod_0_l by lia. lia.
Qed.

Lemma heat_decays i grids : forall heat h,
  0 <= h < 256 -> get heat (Int i) = Some h ->
  Forall (fun grid => get grid (Int i) = Some 0) grids ->
  get (updateHeatMapEach heat grids) (Int i)
  = Some (Z.max (h - Z.of_nat (length grids) * decay) 0).
Proof.
  induction grids as [|grid grids IH]; intros heat h Hh Hheat Hdead.
  - change (updateHeatMapEach heat []) with heat. rewrite Hheat. f_equal.
    change (length (@nil (list Z))) with 0%nat. lia.
  - apply Forall_cons in Hdead as [Hgrid Hdead].
    change (updateHeatMapEach heat (grid :: grids))
      with (updateHeatMapEach (updateHeatMap heat grid decay maxHeat) grids).
    rewrite (IH _ (Z.max (h - decay) 0)).
    + f_equal. change (length (grid :: grids)) with (S (length grids)). lia.
    + lia.
    + rewrite get_updateHeatMap by (eapply get_Some_range; exact Hheat).
      rewrite Hheat, Hgrid. f_equal. apply nextHeat_dead; [exact Hh|reflexivity].
    + exact Hdead.
Qed.

End Heat.

(** C6 (as amended). For buffers of equal length, a byte-valued previous
    heat, an integer decay >= 0 and an integer maxHeat with
    0 <= maxHeat <= 255, and every index i: if
    currentGrid[i] is live the new heat is maxHeat, otherwise it is
    max(previousHeat[i] - decay, 0); it is never negative and, given
    previousHeat[i] <= maxHeat, never above maxHeat.  Consequently a cell
    with heat maxHeat that is dead in each of m consecutive updates has heat
    max(maxHeat - m*decay, 0). *)
Theorem heat_update (previous currentGrid : Uint8Array) (decay maxHeat i : Z) :
  length previous = length currentGrid ->
  bytes previous ->
  0 <= decay ->
  0 <= maxHeat <= 255 ->
  0 <= i < Z.of_nat (length previous) ->
  (exists p c h,
     get previous (Int i) = Some p /\
     get currentGrid (Int i) = Some c /\
     get (updateHeatMap previous currentGrid decay maxHeat) (Int i) = Some h /\
     (c <> 0 -> h = maxHeat) /\
     (c = 0 -> h = Z.max (p - decay) 0) /\
     0 <= h /\ (p <= maxHeat -> h <= maxHeat)) /\
  (forall heat grids,
     get heat (Int i) = Some maxHeat ->
     Forall (fun grid => get grid (Int i) = Some 0) grids ->
     get (updateHeatMapEach decay maxHeat heat grids) (Int i)
     = Some (Z.max (maxHeat - Z.of_nat (length grids) * decay) 0)).
Proof.
  intros Hlen Hbytes Hdecay Hmax Hi. split.
  - destruct (get_in_range previous i Hi) as [p Hp].
    destruct (get_in_range currentGrid i ltac:(rewrite <- Hlen; exact Hi)) as [c Hc].
    pose proof (get_bytes _ _ _ Hbytes Hp) as Hpb.
    exists p, c. eexists. split; [exact Hp|]. split; [exact Hc|].
    split; [rewrite get_updateHeatMap by exact Hi; rewrite Hp, Hc; reflexivity|].
    destruct (Z.eq_dec c 0) as [Hc0|Hc0].
    + rewrite nextHeat_dead by assumption. repeat split; lia.
    + unfold nextHeat. simpl truthy.
      destruct (Z.eqb_spec c 0) as [?|_]; [contradiction|]. simpl negb.
      rewrite Z.mod_small by lia. repeat split; lia.
  - intros heat grids Hheat Hdead. apply heat_decays; [exact Hdecay|lia|assumption..].
Qed.

Lemma heat_update_witness :
  (exists p c h,
     get [10; 4; 0] (Int 1) = Some p /\
     get [0; 0; 1] (Int 1) = Some c /\
     get (updateHeatMap [10; 4; 0] [0; 0; 1] 3 10) (Int 1) = Some h /\
     (c <> 0 -> h = 10) /\
     (c = 0 -> h = Z.max (p - 3) 0) /\
     0 <= h /\ (p <= 10 -> h <= 10)) /\
  (forall heat grids,
     get heat (Int 1) = Some 10 ->
     Forall (fun grid => get grid (Int 1) = Some 0) grids ->
     get (updateHeatMapEach 3 10 heat grids) (Int 1)
     = Some (Z.max (10 - Z.of_nat (length grids) * 3) 0)).
Proof.
  apply (heat_update [10; 4; 0] [0; 0; 1] 3 10 1).
  - reflexivity.
  - unfold bytes. repeat constructor; lia.
  - lia.
  - lia.
  - simpl. lia.
Defined.

(** C6 as stated fails for maxHeat above 255: the heat buffer holds bytes,
    so a live cell updated with maxHeat = 300 gets heat 44.  It also needs
    decay >= 0: with decay = -1 a dead cell of heat 10 = maxHeat goes to 11.
    (The byte store also truncates a fractional value; fractional decay and
    maxHeat are outside this embedding, and the amended statement is about
    integers.) *)
Lemma heat_of_live_cell_is_a_byte :
  (truthy (get [1] (Int 0)) = true /\
   get (updateHeatMap [0] [1] 1 300) (Int 0) = Some 44 /\
   get (updateHeatMap [0] [1] 1 300) (Int 0) <> Some 300) /\
  (truthy (get [0] (Int 0)) = false /\
   get (updateHeatMap [10] [0] (-1) 10) (Int 0) = Some 11 /\
   ~ 11 <= 10).
Proof. repeat split; try reflexivity; try discriminate. lia. Qed.

(** ** Births and deaths *)

(** The number of indices i at which [test previous[i] current[i]] holds. *)
Fixpoint countPairs (test : Z -> Z -> bool) (previous current : Uint8Array) : Z :=
  match previous, current with
  | p :: ps, c :: cs => (if test p c then 1 else 0) + countPairs test ps cs
  | _, _ => 0
  end.

Definition isBirth (p c : Z) : bool := (p =? 0) && (c =? 1).
Definition isDeath (p c : Z) : bool := (p =? 1) && (c =? 0).

Lemma fold2_diffStep previous : forall current d,
  length previous = length current -> binary previous -> binary current ->
  fold2 diffStep d previous current =
  {| births := births d + countPairs isBirth previous current;
     deaths := deaths d + countPairs isDeath previous current |}.
Proof.
  induction previous as [|p ps IH]; intros current d Hlen Hp Hc.
  - destruct d as [b dd]. simpl. f_equal; lia.
  - destruct current as [|c cs]; [discriminate|].
    apply Forall_cons in Hp as [Hp0 Hp]. apply Forall_cons in Hc as [Hc0 Hc].
    cbn [fold2 head tail countPairs]. rewrite IH by (try assumption; simpl in Hlen; lia).
    destruct d as [b dd].
    destruct Hp0 as [-> | ->], Hc0 as [-> | ->]; simpl; f_equal; lia.
Qed.

Lemma countPairs_total previous : forall current,
  length previous = length current -> binary previous -> binary current ->
  countPairs isBirth previous current + countPairs isDeath previous current
  + countPairs Z.eqb previous current = Z.of_nat (length previous).
Proof.
  induction previous as [|p ps IH]; intros current Hlen Hp Hc; [reflexivity|].
  destruct current as [|c cs]; [discriminate|].
  apply Forall_cons in Hp as [Hp0 Hp]. apply Forall_cons in Hc as [Hc0 Hc].
  specialize (IH cs ltac:(simpl in Hlen; lia) Hp Hc).
  change (length (p :: ps)) with (S (length ps)). cbn [countPairs].
  destruct Hp0 as [-> | ->], Hc0 as [-> | ->]; simpl; lia.
Qed.

(** C7. Diff accounting: for equal-length buffers with entries in {0,1},
    [countBirthsAndDeaths] returns as births the number of indices that go
    from 0 to 1 and as deaths the number that go from 1 to 0, and births +
    deaths + the number of indices with equal entries is the common length. *)
Theorem diff_accounting (previous current : Uint8Array) :
  length previous = length current ->
  binary previous -> binary current ->
  births (countBirthsAndDeaths previous current) = countPairs isBirth previous current /\
  deaths (countBirthsAndDeaths previous current) = countPairs isDeath previous current /\
  births (countBirthsAndDeaths previous current)
  + deaths (countBirthsAndDeaths previous current)
  + countPairs Z.eqb previous current = Z.of_nat (length previous).
Proof.
  intros Hlen Hp Hc. unfold countBirthsAndDeaths.
  rewrite (foldl_paired diffStep), fold2_diffStep by assumption. simpl births. simpl deaths.
  split; [reflexivity|]. split; [reflexivity|].
  apply countPairs_total; assumption.
Qed.

Lemma diff_accounting_witness :
  births (countBirthsAndDeaths [0; 1; 0; 1] [1; 0; 0; 1])
    = countPairs isBirth [0; 1; 0; 1] [1; 0; 0; 1] /\
  deaths (countBirthsAndDeaths [0; 1; 0; 1] [1; 0; 0; 1])
    = countPairs isDeath [0; 1; 0; 1] [1; 0; 0; 1] /\
  births (countBirthsAndDeaths [0; 1; 0; 1] [1; 0; 0; 1])
  + deaths (countBirthsAndDeaths [0; 1; 0; 1] [1; 0; 0; 1])
  + countPairs Z.eqb [0; 1; 0; 1] [1; 0; 0; 1] = Z.of_nat (length [0; 1; 0; 1]).
Proof.
  apply (diff_accounting [0; 1; 0; 1] [1; 0; 0; 1]).
  - reflexivity.
  - unfold binary. repeat constructor; lia.
  - unfold binary. repeat constructor; lia.
Defined.

(** ** Edit operations *)

Section Edits.
Variables (cols rows : Z) (wrapEdges : bool).

(** The index an edit writes for the cell (vx, vy) before normalisation;
    [NaN], which no write reaches, when the cell is skipped. *)
Definition target (vx vy : Z) : number :=
  match normalizeCoord vx cols wrapEdges, normalizeCoord vy rows wrapEdges with
  | Some nx, Some ny => indexOf nx ny cols
  | _, _ => NaN
  end.

Lemma set_target (next : Uint8Array) vx vy v :
  match normalizeCoord vx cols wrapEdges, normalizeCoord vy rows wrapEdges with
  | Some nx, Some ny => set next (indexOf nx ny cols) v
  | _, _ => next
  end = set next (target vx vy) v.
Proof.
  unfold target.
  destruct (normalizeCoord vx cols wrapEdges), (normalizeCoord vy rows wrapEdges);
    reflexivity.
Qed.

Lemma normalizeCoord_in_range v max : 0 <= v < max ->
  normalizeCoord v max wrapEdges = Some (Int v).
Proof.
  intros Hv. unfold normalizeCoord. destruct wrapEdges.
  - destruct (rem_nonneg (v + max) max) as [-> _]; [lia|lia|].
    do 2 f_equal. rewrite <- (Z.mul_1_l max) at 1.
    rewrite Z.mod_add by lia. apply Z.mod_small. exact Hv.
  - destruct (_ || _) eqn:E; [lia|reflexivity].
Qed.

Lemma target_in_range vx vy : 0 <= vx < cols -> 0 <= vy < rows ->
  target vx vy = Int (vy * cols + vx).
Proof.
  intros Hx Hy. unfold target. rewrite !normalizeCoord_in_range by assumption.
  reflexivity.
Qed.

Lemma stampPattern_loop grid name cx cy :
  stampPattern grid cols rows name cx cy wrapEdges =
  writeLoop (fun off => target (cx + fst off) (cy + snd off)) (fun _ => 1)
            (PATTERN_OFFSETS name) grid.
Proof.
  unfold stampPattern, writeLoop. apply foldl_ext_in.
  intros next [px py] _. apply set_target.
Qed.

Lemma applyBrush_loop grid x y size alive :
  applyBrush grid cols rows x y size alive wrapEdges =
  writeLoop (fun off => target (x + snd off) (y + fst off))
            (fun _ => if alive then 1 else 0)
            (range (- Z.max 0 ((size - 1) / 2)) (Z.max 0 ((size - 1) / 2) + 1)
               ≫= fun dy => pair dy <$>
                  range (- Z.max 0 ((size - 1) / 2)) (Z.max 0 ((size - 1) / 2) + 1))
            grid.
Proof.
  unfold applyBrush, writeLoop.
  rewrite <- (foldl_nested
    (fun next dy dx => set next (target (x + dx) (y + dy)) (if alive then 1 else 0))).
  apply foldl_ext_in. intros next dy _. apply foldl_ext_in. intros next' dx _.
  apply set_target.
Qed.

Lemma length_applyBrush grid x y size alive :
  length (applyBrush grid cols rows x y size alive wrapEdges) = length grid.
Proof. rewrite applyBrush_loop. apply length_writeLoop. Qed.

(** Every offset of the square whose target lies in the buffer is painted. *)
Lemma applyBrush_paints grid x y size alive dx dy j :
  - Z.max 0 ((size - 1) / 2) <= dx <= Z.max 0 ((size - 1) / 2) ->
  - Z.max 0 ((size - 1) / 2) <= dy <= Z.max 0 ((size - 1) / 2) ->
  target (x + dx) (y + dy) = Int j ->
  0 <= j < Z.of_nat (length grid) ->
  get (applyBrush grid cols rows x y size alive wrapEdges) (Int j)
  = Some (if alive then 1 else 0).
Proof.
  intros Hdx Hdy Ht Hj. rewrite applyBrush_loop.
  transitivity (Some ((if alive then 1 else 0) mod 256));
    [|destruct alive; reflexivity].
  apply get_writeLoop_written.
  - exact Hj.
  - exists (dy, dx). split; [|exact Ht].
    apply elem_of_cells. rewrite !elem_of_range. lia.
  - reflexivity.
Qed.

Lemma small_size_radius size : size <= 2 -> Z.max 0 ((size - 1) / 2) = 0.
Proof.
  intros Hs. assert ((size - 1) / 2 <= 0); [|lia].
  apply Z.lt_succ_r. apply Z.div_lt_upper_bound; lia.
Qed.

End Edits.

(** C5 (evaluation on a failing input).  A 7x7 brush (radius 3) on a grid of
    2 columns and 20 rows, centred at (0, 10), edges wrapped: the offset
    dx = -3 is normalised by [(value + max) % max] to the column -1, which is
    not in range, and with dy = -3 the write lands on index 13, the cell
    (1, 6), although the square only covers the rows 7 to 13. *)
Theorem brush_far_offset_not_wrapped :
  Z.max 0 ((7 - 1) / 2) = 3 /\
  normalizeCoord (0 + -3) 2 true = Some (Int (-1)) /\
  normalizeCoord (10 + -3) 20 true = Some (Int 7) /\
  indexOf (Int (-1)) (Int 7) 2 = indexOf (Int 1) (Int 6) 2 /\
  get (applyBrush (allDead (2 * 20)) 2 20 0 10 7 true true) (indexOf (Int 1) (Int 6) 2)
    = Some 1 /\
  (forall dy, -3 <= dy <= 3 -> (10 + dy) mod 20 <> 6).
Proof.
  repeat split; try reflexivity.
  intros dy Hdy. rewrite Z.mod_small by lia. lia.
Qed.

(** Stamping never clears: the stamped buffer has the length of the input,
    every cell that is live in the input is live in the result, and every
    cell either keeps its value or is alive. *)
Lemma stamp_never_clears (grid : Uint8Array) (cols rows : Z) (name : PatternName)
    (cx cy : Z) (wrap : bool) (j : Z) :
  length (stampPattern grid cols rows name cx cy wrap) = length grid /\
  (get grid (Int j) = Some 1 ->
   get (stampPattern grid cols rows name cx cy wrap) (Int j) = Some 1) /\
  (truthy (get grid (Int j)) = true ->
   truthy (get (stampPattern grid cols rows name cx cy wrap) (Int j)) = true) /\
  (get (stampPattern grid cols rows name cx cy wrap) (Int j) = get grid (Int j) \/
   get (stampPattern grid cols rows name cx cy wrap) (Int j) = Some 1).
Proof.
  rewrite stampPattern_loop.
  set (idxf := fun off : Z * Z => target cols rows wrap (cx + fst off) (cy + snd off)).
  assert (Hcases :
    get (writeLoop idxf (fun _ => 1) (PATTERN_OFFSETS name) grid) (Int j) = get grid (Int j) \/
    get (writeLoop idxf (fun _ => 1) (PATTERN_OFFSETS name) grid) (Int j) = Some 1).
  { destruct (get_writeLoop_cases idxf (fun _ => 1) (PATTERN_OFFSETS name) grid j)
      as [H|(off & _ & _ & H)]; [left; exact H|right; exact H]. }
  split; [apply length_writeLoop|].
  split; [intros Hlive; destruct Hcases as [-> | ->]; [exact Hlive|reflexivity]|].
  split; [intros Hlive; destruct Hcases as [-> | ->]; [exact Hlive|reflexivity]|].
  exact Hcases.
Qed.

(** C8 (evaluation on a failing input).  The blinker stamped on the empty
    3x3 grid at the anchor (-4, 1), edges wrapped: the offsets, normalised
    modulo the dimensions, target the cells (1,1), (2,1), (0,1), that is the
    indices 4, 5, 3.  [(value + max) % max] gives the columns -2, -1, 0
    instead, so the writes land on the indices 1, 2, 3: the cells (1,0) and
    (2,0), which no normalised offset targets, do not keep their value. *)
Theorem stamp_far_anchor_sets_untargeted_cells :
  ((fun off => ((1 + snd off) mod 3) * 3 + (-4 + fst off) mod 3)
     <$> PATTERN_OFFSETS blinker) = [4; 5; 3] /\
  normalizeCoord (-4 + -1) 3 true = Some (Int (-2)) /\
  normalizeCoord (-4 + 0) 3 true = Some (Int (-1)) /\
  normalizeCoord (-4 + 1) 3 true = Some (Int 0) /\
  stampPattern (allDead (3 * 3)) 3 3 blinker (-4) 1 true = [0; 1; 1; 1; 0; 0; 0; 0; 0] /\
  get (allDead (3 * 3)) (Int 1) = Some 0 /\
  get (stampPattern (allDead (3 * 3)) 3 3 blinker (-4) 1 true) (Int 1) = Some 1.
Proof. repeat split; reflexivity. Qed.

(** For every integer size <= 2 the brush radius is clamped to 0 and
    [applyBrush] performs the single write of the centre offset: it returns
    the input with the brush value stored at the centre as [normalizeCoord]
    returns it, or the input itself when the centre is clipped.  For an
    in-range centre that is the cell (x, y), under either edge policy, and
    every other cell keeps its value.  For every size the result has the
    length of the input. *)
Lemma brush_small_size (grid : Uint8Array) (cols rows x y size : Z)
    (alive wrap : bool) :
  size <= 2 ->
  Z.max 0 ((size - 1) / 2) = 0 /\
  applyBrush grid cols rows x y size alive wrap =
    match normalizeCoord x cols wrap, normalizeCoord y rows wrap with
    | Some nx, Some ny => set grid (indexOf nx ny cols) (if alive then 1 else 0)
    | _, _ => grid
    end /\
  (0 <= x < cols -> 0 <= y < rows ->
   applyBrush grid cols rows x y size alive wrap
     = set grid (Int (y * cols + x)) (if alive then 1 else 0) /\
   (0 <= y * cols + x < Z.of_nat (length grid) ->
    get (applyBrush grid cols rows x y size alive wrap) (Int (y * cols + x))
      = Some (if alive then 1 else 0)) /\
   (forall j, j <> y * cols + x ->
    get (applyBrush grid cols rows x y size alive wrap) (Int j) = get grid (Int j))) /\
  (forall anySize,
     length (applyBrush grid cols rows x y anySize alive wrap) = length grid).
Proof.
  intros Hs. pose proof (small_size_radius size Hs) as Hr.
  assert (Hone : applyBrush grid cols rows x y size alive wrap =
    match normalizeCoord x cols wrap, normalizeCoord y rows wrap with
    | Some nx, Some ny => set grid (indexOf nx ny cols) (if alive then 1 else 0)
    | _, _ => grid
    end).
  { unfold applyBrush. rewrite Hr. change (range (- 0) (0 + 1)) with [0].
    cbn [foldl]. rewrite !Z.add_0_r. reflexivity. }
  split; [exact Hr|]. split; [exact Hone|]. split; [|intros s; apply length_applyBrush].
  intros Hx Hy.
  assert (Hset : applyBrush grid cols rows x y size alive wrap
                 = set grid (Int (y * cols + x)) (if alive then 1 else 0)).
  { rewrite Hone, !normalizeCoord_in_range by assumption. reflexivity. }
  rewrite Hset. split; [reflexivity|]. split.
  - intros Hj. rewrite get_set_eq by exact Hj. destruct alive; reflexivity.
  - intros j Hj. apply get_set_ne. congruence.
Qed.

(** C10 (evaluation on a failing input).  A brush of size 1 (radius 0) on
    the empty grid of 3 columns and 2 rows, centred at (-4, 1), edges
    wrapped: the wrapped centre is the cell ((-4) mod 3, 1 mod 2) = (2, 1),
    index 5.  [(value + max) % max] gives the column (-4 + 3) % 3 = -1
    instead, and the write lands on index 1*3 - 1 = 2, the cell (2, 0). *)
Theorem brush_far_centre_not_wrapped :
  Z.max 0 ((1 - 1) / 2) = 0 /\
  indexOf (Int ((-4) mod 3)) (Int (1 mod 2)) 3 = Int 5 /\
  normalizeCoord (-4 + 0) 3 true = Some (Int (-1)) /\
  normalizeCoord (1 + 0) 2 true = Some (Int 1) /\
  indexOf (Int (-1)) (Int 1) 3 = Int 2 /\
  applyBrush (allDead (3 * 2)) 3 2 (-4) 1 1 true true = [0; 0; 1; 0; 0; 0] /\
  get (applyBrush (allDead (3 * 2)) 3 2 (-4) 1 1 true true) (Int 5) = Some 0.
Proof. repeat split; reflexivity. Qed.

Example range_neighbourhood : range (-1) 2 = [-1; 0; 1].
Proof. reflexivity. Qed.

Example blinker_stamped :
  stampPatternDefault (replicate 16 0) 4 4 blinker
  = [0;0;0;0; 0;0;0;0; 0;1;1;1; 0;0;0;0].
Proof. vm_compute. reflexivity. Qed.

(** * Further properties of the engine *)

(** ** Buffers filled by a write loop *)

Section WriteLoopShape.
Context {A : Type} (idxf : A -> number).

Lemma Forall_set (P : Z -> Prop) (a : Uint8Array) i v :
  Forall P a -> P (v mod 256) -> Forall P (set a i v).
Proof.
  intros Ha Hv. destruct i as [|z]; simpl; [exact Ha|].
  destruct (z <? 0); [exact Ha|]. apply Forall_insert; assumption.
Qed.

(** A property of the initial entries and of every written byte holds of
    the final buffer. *)
Lemma Forall_writeLoop (P : Z -> Prop) (valf : A -> Z) items next :
  Forall P next -> (forall it, it ∈ items -> P (valf it mod 256)) ->
  Forall P (writeLoop idxf valf items next).
Proof.
  revert next. induction items as [|it items IH]; intros next Hn Hv; [exact Hn|].
  change (Forall P (writeLoop idxf valf items (set next (idxf it) (valf it)))).
  apply IH.
  - apply Forall_set; [exact Hn|]. apply Hv. left.
  - intros it' Hin. apply Hv. right. exact Hin.
Qed.

(** When every iteration writes the same value [v], an index of the buffer
    holds [v] if some iteration targets it and its initial value if not. *)
Lemma get_writeLoop_const (v : Z) items next j :
  0 <= j < Z.of_nat (length next) ->
  get (writeLoop idxf (fun _ => v) items next) (Int j)
  = if decide (Exists (fun it => idxf it = Int j) items)
    then Some (v mod 256) else get next (Int j).
Proof.
  intros Hj. destruct (decide _) as [Hex|Hnex].
  - apply get_writeLoop_written; [exact Hj| |reflexivity].
    apply Exists_exists in Hex. exact Hex.
  - apply get_writeLoop_untouched. intros it Hin E.
    apply Hnex. apply Exists_exists. eauto.
Qed.

(** Repeating a loop of constant writes with another value: the second
    value wins, wherever the first was written. *)
Lemma writeLoop_const_again (v1 v2 : Z) items next :
  writeLoop idxf (fun _ => v2) items (writeLoop idxf (fun _ => v1) items next)
  = writeLoop idxf (fun _ => v2) items next.
Proof.
  apply buffer_ext; [rewrite !length_writeLoop; reflexivity|].
  intros j Hj. rewrite !length_writeLoop in Hj.
  rewrite !get_writeLoop_const by (rewrite ?length_writeLoop; exact Hj).
  destruct (decide _); reflexivity.
Qed.

End WriteLoopShape.

(** Two loops of constant writes of one value commute. *)
Lemma writeLoop_const_comm {A B : Type} (idxf : A -> number) (idxg : B -> number)
    (v : Z) items items' next :
  writeLoop idxf (fun _ => v) items (writeLoop idxg (fun _ => v) items' next)
  = writeLoop idxg (fun _ => v) items' (writeLoop idxf (fun _ => v) items next).
Proof.
  apply buffer_ext; [rewrite !length_writeLoop; reflexivity|].
  intros j Hj. rewrite !length_writeLoop in Hj.
  rewrite !get_writeLoop_const by (rewrite ?length_writeLoop; exact Hj).
  repeat destruct (decide _); reflexivity.
Qed.

Lemma get_of_nat (a : Uint8Array) (k : nat) : get a (Int (Z.of_nat k)) = a !! k.
Proof.
  simpl. destruct (Z.ltb_spec (Z.of_nat k) 0); [lia|]. rewrite Nat2Z.id. reflexivity.
Qed.

Lemma binary_bit v : v = 0 \/ v = 1 -> (v mod 256 = 0 \/ v mod 256 = 1).
Proof. intros [-> | ->]; [left|right]; reflexivity. Qed.

(** ** The row-major mapping *)

(** X1. For a grid with at least one column whose cols*rows cells are
    within the range where the engine's arithmetic on numbers is exact
    (cols*rows <= 2^53), [indexOf] and (j mod cols, j / cols) are inverse
    bijections between the in-range cells and the indices of the buffer. *)
Theorem indexOf_round_trip (cols rows : Z) :
  0 < cols -> cols * rows <= 2 ^ 53 ->
  (forall x y, 0 <= x < cols -> 0 <= y < rows ->
     exists j, indexOf (Int x) (Int y) cols = Int j /\
               0 <= j < cols * rows /\ j mod cols = x /\ j / cols = y) /\
  (forall j, 0 <= j < cols * rows ->
     0 <= j mod cols < cols /\ 0 <= j / cols < rows /\
     indexOf (Int (j mod cols)) (Int (j / cols)) cols = Int j).
Proof.
  intros Hc _. split.
  - intros x y Hx Hy. exists (y * cols + x). split; [reflexivity|].
    split; [apply index_in_range; assumption|].
    rewrite Z.add_comm. rewrite Z.mod_add, Z.div_add by lia.
    rewrite Z.mod_small, Z.div_small by lia. lia.
  - intros j Hj. destruct (index_cell j cols rows Hj Hc) as (Hx & Hy & E).
    split; [exact Hx|]. split; [exact Hy|]. rewrite indexOf_Int. f_equal. lia.
Qed.

Lemma indexOf_round_trip_witness :
  (forall x y, 0 <= x < 4 -> 0 <= y < 3 ->
     exists j, indexOf (Int x) (Int y) 4 = Int j /\
               0 <= j < 4 * 3 /\ j mod 4 = x /\ j / 4 = y) /\
  (forall j, 0 <= j < 4 * 3 ->
     0 <= j mod 4 < 4 /\ 0 <= j / 4 < 3 /\
     indexOf (Int (j mod 4)) (Int (j / 4)) 4 = Int j).
Proof. apply (indexOf_round_trip 4 3); lia. Defined.

(** ** Shape of a generation *)

Lemma stepGrid_shape_ok current cols rows options :
  0 <= cols * rows ->
  exists next, stepGrid current cols rows options = Ok next /\
               Z.of_nat (length next) = cols * rows /\ binary next.
Proof.
  intros Hlen. rewrite stepGrid_loop, createGrid_ok by exact Hlen.
  eexists. split; [reflexivity|]. split.
  - rewrite length_writeLoop, length_replicate. lia.
  - apply Forall_writeLoop.
    + apply Forall_replicate. left. reflexivity.
    + intros [y x] _. apply binary_bit. apply nextState_bit.
Qed.

Lemma stepGrid_Ok_inv current cols rows options next :
  stepGrid current cols rows options = Ok next -> 0 <= cols * rows.
Proof.
  unfold stepGrid, createGrid, newUint8Array.
  destruct (Z.ltb_spec (cols * rows) 0); [discriminate|lia].
Qed.

(** X2. [stepGrid] throws a RangeError when cols*rows is negative.
    Whenever it returns, whatever the input buffer (any length, any bytes)
    and the options, the result has cols*rows cells, each 0 or 1.  It
    returns whenever the input buffer has cols*rows cells. *)
Theorem stepGrid_shape (current : Uint8Array) (cols rows : Z) (options : Options) :
  (cols * rows < 0 -> stepGrid current cols rows options = Throw RangeError) /\
  (forall next, stepGrid current cols rows options = Ok next ->
                Z.of_nat (length next) = cols * rows /\ binary next) /\
  (Z.of_nat (length current) = cols * rows ->
   exists next, stepGrid current cols rows options = Ok next).
Proof.
  split; [|split].
  - intros Hneg. unfold stepGrid, createGrid, newUint8Array.
    destruct (Z.ltb_spec (cols * rows) 0); [reflexivity|lia].
  - intros next Hok. pose proof (stepGrid_Ok_inv _ _ _ _ _ Hok) as Hlen.
    destruct (stepGrid_shape_ok current cols rows options Hlen) as (next' & E & H).
    rewrite Hok in E. inversion E. subst next'. exact H.
  - intros Hlen.
    destruct (stepGrid_shape_ok current cols rows options ltac:(lia)) as (next & E & _).
    exists next. exact E.
Qed.

(** ** The other presets *)

Lemma highlife_born n : 0 <= n <= 8 ->
  truthyAt (born (RULE_TABLES highlife)) (Int n) = ((n =? 3) || (n =? 6)).
Proof.
  intros Hn.
  assert (n = 0 \/ n = 1 \/ n = 2 \/ n = 3 \/ n = 4 \/ n = 5 \/ n = 6 \/ n = 7 \/ n = 8)
    as H by lia.
  repeat (destruct H as [->|H]; [reflexivity|]). subst n. reflexivity.
Qed.

Lemma highlife_survive n : 0 <= n <= 8 ->
  truthyAt (survive (RULE_TABLES highlife)) (Int n) = ((n =? 2) || (n =? 3)).
Proof.
  intros Hn.
  assert (n = 0 \/ n = 1 \/ n = 2 \/ n = 3 \/ n = 4 \/ n = 5 \/ n = 6 \/ n = 7 \/ n = 8)
    as H by lia.
  repeat (destruct H as [->|H]; [reflexivity|]). subst n. reflexivity.
Qed.

Lemma seeds_born n : 0 <= n <= 8 ->
  truthyAt (born (RULE_TABLES seeds)) (Int n) = (n =? 2).
Proof.
  intros Hn.
  assert (n = 0 \/ n = 1 \/ n = 2 \/ n = 3 \/ n = 4 \/ n = 5 \/ n = 6 \/ n = 7 \/ n = 8)
    as H by lia.
  repeat (destruct H as [->|H]; [reflexivity|]). subst n. reflexivity.
Qed.

(** On a well-formed grid the next state of an in-range cell is the table
    entry selected by its state and its number of live Moore neighbours. *)
Lemma preset_transition current cols rows x y r wrap :
  Z.of_nat (length current) = cols * rows ->
  binary current ->
  0 <= x < cols -> 0 <= y < rows ->
  exists next n c,
    stepGrid current cols rows {| rule := r; wrapEdges := wrap |} = Ok next /\
    n = liveNeighbors current cols rows wrap x y /\
    getNeighborCount current x y cols rows wrap = Int n /\ 0 <= n <= 8 /\
    get current (indexOf (Int x) (Int y) cols) = Some c /\ (c = 0 \/ c = 1) /\
    get next (indexOf (Int x) (Int y) cols)
    = Some (nextState (RULE_TABLES r) (c =? 1) (Int n)).
Proof.
  intros Hlen Hbin Hx Hy.
  set (options := {| rule := r; wrapEdges := wrap |}).
  destruct (stepGrid_cells current cols rows options) as (next & Hstep & _ & Hcells);
    [lia|lia|].
  destruct (getNeighborCount_bounds current x y cols rows wrap Hlen Hx Hy 0 1)
    as (n & Hn & Hn8); [lia| |].
  { intros j v Hv. destruct (get_binary _ _ _ Hbin Hv); lia. }
  assert (Hspec : n = liveNeighbors current cols rows wrap x y).
  { pose proof (getNeighborCount_liveNeighbors current x y cols rows wrap
                  Hlen Hbin Hx Hy) as E.
    rewrite Hn in E. inversion E. reflexivity. }
  rewrite indexOf_Int.
  destruct (get_in_range current (y * cols + x)) as [c Hc].
  { rewrite Hlen. apply index_in_range; assumption. }
  exists next, n, c. split; [exact Hstep|]. split; [exact Hspec|].
  split; [exact Hn|]. split; [lia|].
  split; [exact Hc|]. split; [exact (get_binary _ _ _ Hbin Hc)|].
  rewrite Hcells by assumption. unfold stepCell. rewrite indexOf_Int, Hc.
  simpl wrapEdges. rewrite Hn. reflexivity.
Qed.

(** X3. HighLife (B36/S23): on a grid of cols*rows cells with entries in
    {0,1}, under either edge policy, the count [getNeighborCount] computes
    for an in-range cell is its number n of live Moore neighbours (as the
    specification counts them); a dead cell becomes alive iff n is 3 or 6
    and a live one stays alive iff n is 2 or 3. *)
Theorem highlife_transition (current : Uint8Array) (cols rows x y : Z) (wrap : bool) :
  Z.of_nat (length current) = cols * rows ->
  binary current ->
  0 <= x < cols -> 0 <= y < rows ->
  exists next n c,
    stepGrid current cols rows {| rule := highlife; wrapEdges := wrap |} = Ok next /\
    n = liveNeighbors current cols rows wrap x y /\
    getNeighborCount current x y cols rows wrap = Int n /\ 0 <= n <= 8 /\
    get current (indexOf (Int x) (Int y) cols) = Some c /\ (c = 0 \/ c = 1) /\
    (c = 0 -> get next (indexOf (Int x) (Int y) cols)
              = Some (if (n =? 3) || (n =? 6) then 1 else 0)) /\
    (c = 1 -> get next (indexOf (Int x) (Int y) cols)
              = Some (if (n =? 2) || (n =? 3) then 1 else 0)).
Proof.
  intros Hlen Hbin Hx Hy.
  destruct (preset_transition current cols rows x y highlife wrap Hlen Hbin Hx Hy)
    as (next & n & c & Hstep & Hspec & Hn & Hn8 & Hc & Hbit & Hnext).
  exists next, n, c. repeat (split; [assumption|]).
  rewrite Hnext. unfold nextState.
  rewrite highlife_born, highlife_survive by exact Hn8.
  split; intros ->; reflexivity.
Qed.

Lemma highlife_transition_witness :
  exists next n c,
    stepGrid [1; 1; 1; 1; 0; 1; 0; 0; 1] 3 3 {| rule := highlife; wrapEdges := false |}
      = Ok next /\
    n = liveNeighbors [1; 1; 1; 1; 0; 1; 0; 0; 1] 3 3 false 1 1 /\
    getNeighborCount [1; 1; 1; 1; 0; 1; 0; 0; 1] 1 1 3 3 false = Int n /\ 0 <= n <= 8 /\
    get [1; 1; 1; 1; 0; 1; 0; 0; 1] (indexOf (Int 1) (Int 1) 3) = Some c /\
    (c = 0 \/ c = 1) /\
    (c = 0 -> get next (indexOf (Int 1) (Int 1) 3)
              = Some (if (n =? 3) || (n =? 6) then 1 else 0)) /\
    (c = 1 -> get next (indexOf (Int 1) (Int 1) 3)
              = Some (if (n =? 2) || (n =? 3) then 1 else 0)).
Proof.
  apply (highlife_transition [1; 1; 1; 1; 0; 1; 0; 0; 1] 3 3 1 1 false).
  - reflexivity.
  - unfold binary. repeat constructor; lia.
  - lia.
  - lia.
Defined.

(** X4. Seeds (B2/S): on a grid of cols*rows cells with entries in {0,1},
    under either edge policy, the count [getNeighborCount] computes for an
    in-range cell is its number n of live Moore neighbours (as the
    specification counts them), and the cell is alive in the next
    generation iff it is dead now and n = 2. *)
Theorem seeds_transition (current : Uint8Array) (cols rows x y : Z) (wrap : bool) :
  Z.of_nat (length current) = cols * rows ->
  binary current ->
  0 <= x < cols -> 0 <= y < rows ->
  exists next n c,
    stepGrid current cols rows {| rule := seeds; wrapEdges := wrap |} = Ok next /\
    n = liveNeighbors current cols rows wrap x y /\
    getNeighborCount current x y cols rows wrap = Int n /\ 0 <= n <= 8 /\
    get current (indexOf (Int x) (Int y) cols) = Some c /\ (c = 0 \/ c = 1) /\
    get next (indexOf (Int x) (Int y) cols)
    = Some (if (c =? 0) && (n =? 2) then 1 else 0).
Proof.
  intros Hlen Hbin Hx Hy.
  destruct (preset_transition current cols rows x y seeds wrap Hlen Hbin Hx Hy)
    as (next & n & c & Hstep & Hspec & Hn & Hn8 & Hc & Hbit & Hnext).
  exists next, n, c. repeat (split; [assumption|]).
  rewrite Hnext. unfold nextState. rewrite seeds_born, seeds_survive by exact Hn8.
  destruct Hbit as [-> | ->]; reflexivity.
Qed.

Lemma seeds_transition_witness :
  exists next n c,
    stepGrid [1; 0; 1; 0; 0; 0] 3 2 {| rule := seeds; wrapEdges := false |} = Ok next /\
    n = liveNeighbors [1; 0; 1; 0; 0; 0] 3 2 false 1 1 /\
    getNeighborCount [1; 0; 1; 0; 0; 0] 1 1 3 2 false = Int n /\ 0 <= n <= 8 /\
    get [1; 0; 1; 0; 0; 0] (indexOf (Int 1) (Int 1) 3) = Some c /\ (c = 0 \/ c = 1) /\
    get next (indexOf (Int 1) (Int 1) 3) = Some (if (c =? 0) && (n =? 2) then 1 else 0).
Proof.
  apply (seeds_transition [1; 0; 1; 0; 0; 0] 3 2 1 1 false).
  - reflexivity.
  - unfold binary. repeat constructor; lia.
  - lia.
  - lia.
Defined.

(** ** Where the edge policies differ *)

Lemma mod_add_self v m : 0 <= v < m -> (v + m) mod m = v.
Proof.
  intros Hv. replace (v + m) with (v + 1 * m) by lia.
  rewrite Z.mod_add by lia. apply Z.mod_small. exact Hv.
Qed.

Lemma visit_inside (grid : Uint8Array) x y cols rows (neighbors : number) dy dx :
  1 <= x < cols - 1 -> 1 <= y < rows - 1 ->
  -1 <= dx <= 1 -> -1 <= dy <= 1 ->
  visit grid x y cols rows true neighbors dy dx
  = visit grid x y cols rows false neighbors dy dx.
Proof.
  intros Hx Hy Hdx Hdy. unfold visit.
  destruct ((dx =? 0) && (dy =? 0)); [reflexivity|].
  destruct (rem_nonneg (x + dx + cols) cols) as [-> _]; [lia|lia|].
  destruct (rem_nonneg (y + dy + rows) rows) as [-> _]; [lia|lia|].
  rewrite (mod_add_self (x + dx) cols), (mod_add_self (y + dy) rows) by lia.
  destruct (_ || _) eqn:Hout; [lia|reflexivity].
Qed.

(** X5. The two edge policies give the same neighbour count for every cell
    that is not on the border of the grid, whatever the buffer holds. *)
Theorem policies_agree_inside (grid : Uint8Array) (x y cols rows : Z) :
  1 <= x < cols - 1 -> 1 <= y < rows - 1 ->
  getNeighborCount grid x y cols rows true = getNeighborCount grid x y cols rows false.
Proof.
  intros Hx Hy. rewrite !getNeighborCount_visits.
  rewrite !(visit_inside grid x y cols rows) by lia. reflexivity.
Qed.

Lemma policies_agree_inside_witness :
  getNeighborCount [1; 0; 1; 0; 0; 0; 1; 1; 0] 1 1 3 3 true
  = getNeighborCount [1; 0; 1; 0; 0; 0; 1; 1; 0] 1 1 3 3 false.
Proof. apply (policies_agree_inside [1; 0; 1; 0; 0; 0; 1; 1; 0] 1 1 3 3); lia. Defined.

(** ** Brush strokes and stamps, cell by cell *)

Section EditTargets.
Variables (cols rows : Z).

Lemma target_bounded_Int vx vy j :
  target cols rows false vx vy = Int j ->
  0 <= vx < cols /\ 0 <= vy < rows /\ j = vy * cols + vx.
Proof.
  unfold target, normalizeCoord.
  destruct ((vx <? 0) || (vx >=? cols)) eqn:Ex; [discriminate|].
  destruct ((vy <? 0) || (vy >=? rows)) eqn:Ey; [discriminate|].
  rewrite indexOf_Int. intros E. inversion E. lia.
Qed.

Lemma target_wrap vx vy :
  0 < cols -> 0 < rows -> 0 <= vx + cols -> 0 <= vy + rows ->
  target cols rows true vx vy = Int ((vy mod rows) * cols + vx mod cols).
Proof.
  intros Hc Hr Hx Hy. unfold target, normalizeCoord.
  destruct (rem_nonneg (vx + cols) cols) as [-> _]; [lia|lia|].
  destruct (rem_nonneg (vy + rows) rows) as [-> _]; [lia|lia|].
  rewrite indexOf_Int.
  replace (vx + cols) with (vx + 1 * cols) by lia.
  replace (vy + rows) with (vy + 1 * rows) by lia.
  rewrite !Z.mod_add by lia. reflexivity.
Qed.

Lemma pattern_offsets_bounds name off :
  off ∈ PATTERN_OFFSETS name -> -3 <= fst off /\ -1 <= snd off.
Proof.
  intros H. destruct name; simpl in H;
    repeat (apply elem_of_cons in H as [->|H]; [simpl; lia|]);
    apply elem_of_nil in H; contradiction.
Qed.

End EditTargets.



(** X7. Wrapped brush no wider than the grid: on a grid of cols*rows cells
    with wrapEdges = true, an in-range centre and a radius r <= cols and
    r <= rows, every offset (dx, dy) of the square paints the cell
    ((x+dx) mod cols, (y+dy) mod rows), and an in-range cell that is no such
    cell keeps its value. *)
Theorem brush_wrapped_within_grid (grid : Uint8Array) (cols rows x y size : Z)
    (alive : bool) :
  Z.of_nat (length grid) = cols * rows ->
  0 <= x < cols -> 0 <= y < rows ->
  Z.max 0 ((size - 1) / 2) <= cols -> Z.max 0 ((size - 1) / 2) <= rows ->
  (forall dx dy,
     - Z.max 0 ((size - 1) / 2) <= dx <= Z.max 0 ((size - 1) / 2) ->
     - Z.max 0 ((size - 1) / 2) <= dy <= Z.max 0 ((size - 1) / 2) ->
     get (applyBrush grid cols rows x y size alive true)
         (indexOf (Int ((x + dx) mod cols)) (Int ((y + dy) mod rows)) cols)
     = Some (if alive then 1 else 0)) /\
  (forall a b, 0 <= a < cols -> 0 <= b < rows ->
     (forall dx dy,
        - Z.max 0 ((size - 1) / 2) <= dx <= Z.max 0 ((size - 1) / 2) ->
        - Z.max 0 ((size - 1) / 2) <= dy <= Z.max 0 ((size - 1) / 2) ->
        ~ (a = (x + dx) mod cols /\ b = (y + dy) mod rows)) ->
     get (applyBrush grid cols rows x y size alive true) (indexOf (Int a) (Int b) cols)
     = get grid (indexOf (Int a) (Int b) cols)).
Proof.
  intros Hlen Hx Hy Hrc Hrr. split.
  - intros dx dy Hdx Hdy. rewrite indexOf_Int.
    apply (applyBrush_paints cols rows true grid x y size alive dx dy _ Hdx Hdy).
    + apply target_wrap; lia.
    + rewrite Hlen. apply index_in_range; apply Z.mod_pos_bound; lia.
  - intros a b Ha Hb Hno. rewrite indexOf_Int, applyBrush_loop.
    apply get_writeLoop_untouched.
    intros [dy dx] Hoff. apply elem_of_cells in Hoff as [Hdy Hdx].
    apply elem_of_range in Hdy, Hdx. simpl.
    rewrite target_wrap by lia. intros E. inversion E as [E'].
    apply index_inj in E' as [Ea Eb]; [| apply Z.mod_pos_bound; lia | lia].
    apply (Hno dx dy); [lia|lia|]. split; congruence.
Qed.

Lemma brush_wrapped_within_grid_witness :
  (forall dx dy,
     - Z.max 0 ((3 - 1) / 2) <= dx <= Z.max 0 ((3 - 1) / 2) ->
     - Z.max 0 ((3 - 1) / 2) <= dy <= Z.max 0 ((3 - 1) / 2) ->
     get (applyBrush (allDead (4 * 3)) 4 3 0 0 3 true true)
         (indexOf (Int ((0 + dx) mod 4)) (Int ((0 + dy) mod 3)) 4)
     = Some (if true then 1 else 0)) /\
  (forall a b, 0 <= a < 4 -> 0 <= b < 3 ->
     (forall dx dy,
        - Z.max 0 ((3 - 1) / 2) <= dx <= Z.max 0 ((3 - 1) / 2) ->
        - Z.max 0 ((3 - 1) / 2) <= dy <= Z.max 0 ((3 - 1) / 2) ->
        ~ (a = (0 + dx) mod 4 /\ b = (0 + dy) mod 3)) ->
     get (applyBrush (allDead (4 * 3)) 4 3 0 0 3 true true) (indexOf (Int a) (Int b) 4)
     = get (allDead (4 * 3)) (indexOf (Int a) (Int b) 4)).
Proof.
  apply (brush_wrapped_within_grid (allDead (4 * 3)) 4 3 0 0 3 true).
  - reflexivity.
  - lia.
  - lia.
  - vm_compute. discriminate.
  - vm_compute. discriminate.
Defined.


(** X9. Stamping a pattern twice at one anchor is stamping it once, and two
    stamps, of any patterns at any anchors and edge policies, commute. *)
Theorem stamps_idempotent_commute (grid : Uint8Array) (cols rows : Z)
    (name name' : PatternName) (cx cy cx' cy' : Z) (wrap wrap' : bool) :
  stampPattern (stampPattern grid cols rows name cx cy wrap) cols rows name cx cy wrap
  = stampPattern grid cols rows name cx cy wrap /\
  stampPattern (stampPattern grid cols rows name cx cy wrap) cols rows name' cx' cy' wrap'
  = stampPattern (stampPattern grid cols rows name' cx' cy' wrap') cols rows name cx cy wrap.
Proof.
  rewrite !stampPattern_loop. split.
  - apply writeLoop_const_again.
  - apply writeLoop_const_comm.
Qed.

Lemma binary_applyBrush grid cols rows x y size alive wrap :
  binary grid -> binary (applyBrush grid cols rows x y size alive wrap).
Proof.
  intros Hbin. rewrite applyBrush_loop. apply Forall_writeLoop; [exact Hbin|].
  intros _ _. apply binary_bit. destruct alive; auto.
Qed.

Lemma binary_stampPattern grid cols rows name cx cy wrap :
  binary grid -> binary (stampPattern grid cols rows name cx cy wrap).
Proof.
  intros Hbin. rewrite stampPattern_loop. apply Forall_writeLoop; [exact Hbin|].
  intros _ _. right. reflexivity.
Qed.

Lemma length_stampPattern grid cols rows name cx cy wrap :
  length (stampPattern grid cols rows name cx cy wrap) = length grid.
Proof. rewrite stampPattern_loop. apply length_writeLoop. Qed.



(** X11. Wrapped stamp: on a grid of cols*rows cells with at least 3
    columns, stamping with wrapEdges = true at an in-range anchor makes the
    cell ((cx+px) mod cols, (cy+py) mod rows) alive for every offset
    (px, py) of the pattern. *)
Theorem stamp_wrapped_places_pattern (grid : Uint8Array) (cols rows : Z)
    (name : PatternName) (cx cy : Z) (off : Z * Z) :
  Z.of_nat (length grid) = cols * rows ->
  0 <= cx < cols -> 0 <= cy < rows -> 3 <= cols ->
  off ∈ PATTERN_OFFSETS name ->
  get (stampPattern grid cols rows name cx cy true)
      (indexOf (Int ((cx + fst off) mod cols)) (Int ((cy + snd off) mod rows)) cols)
  = Some 1.
Proof.
  intros Hlen Hx Hy Hc Hoff. rewrite indexOf_Int, stampPattern_loop.
  pose proof (pattern_offsets_bounds name off Hoff) as [Hpx Hpy].
  apply (get_writeLoop_written _ (fun _ => 1) _ _ _ 1).
  - rewrite Hlen. apply index_in_range; apply Z.mod_pos_bound; lia.
  - exists off. split; [exact Hoff|]. apply target_wrap; lia.
  - reflexivity.
Qed.

Lemma stamp_wrapped_places_pattern_witness :
  get (stampPattern (allDead (4 * 3)) 4 3 lwss 0 0 true)
      (indexOf (Int ((0 + fst (-3, 2)) mod 4)) (Int ((0 + snd (-3, 2)) mod 3)) 4)
  = Some 1.
Proof.
  apply (stamp_wrapped_places_pattern (allDead (4 * 3)) 4 3 lwss 0 0 (-3, 2)).
  - reflexivity.
  - lia.
  - lia.
  - lia.
  - simpl. do 7 (apply elem_of_cons; right). apply elem_of_cons. left. reflexivity.
Defined.

(** X12. Bounded stamp, exactly: on a grid of cols*rows cells with
    wrapEdges = false, an in-range cell (a, b) is set alive iff
    (a - cx, b - cy) is an offset of the pattern; every other cell keeps its
    value, and offsets that leave the grid are dropped one by one. *)
Theorem stamp_bounded_exact (grid : Uint8Array) (cols rows : Z) (name : PatternName)
    (cx cy a b : Z) :
  Z.of_nat (length grid) = cols * rows ->
  0 <= a < cols -> 0 <= b < rows ->
  get (stampPattern grid cols rows name cx cy false) (indexOf (Int a) (Int b) cols)
  = if decide ((a - cx, b - cy) ∈ PATTERN_OFFSETS name)
    then Some 1 else get grid (indexOf (Int a) (Int b) cols).
Proof.
  intros Hlen Ha Hb. rewrite indexOf_Int, stampPattern_loop.
  pose proof (index_in_range a b cols rows Ha Hb) as Hj.
  destruct (decide _) as [Hin|Hnin].
  - apply (get_writeLoop_written _ (fun _ => 1) _ _ _ 1).
    + lia.
    + exists (a - cx, b - cy). split; [exact Hin|]. simpl.
      replace (cx + (a - cx)) with a by lia. replace (cy + (b - cy)) with b by lia.
      apply target_in_range; assumption.
    + reflexivity.
  - apply get_writeLoop_untouched. intros [px py] Hoff. simpl. intros E.
    apply target_bounded_Int in E as (Hx' & Hy' & E).
    apply index_inj in E as [Ea Eb]; [|lia|lia].
    apply Hnin. replace (a - cx) with px by lia. replace (b - cy) with py by lia.
    exact Hoff.
Qed.

Lemma stamp_bounded_exact_witness :
  get (stampPattern (allDead (3 * 3)) 3 3 blinker 0 1 false) (indexOf (Int 1) (Int 1) 3)
  = if decide ((1 - 0, 1 - 1) ∈ PATTERN_OFFSETS blinker)
    then Some 1 else get (allDead (3 * 3)) (indexOf (Int 1) (Int 1) 3).
Proof.
  apply (stamp_bounded_exact (allDead (3 * 3)) 3 3 blinker 0 1 1 1).
  - reflexivity.
  - lia.
  - lia.
Defined.

(** ** Population and diff counts *)

(** The sum of the entries of a buffer. *)
Definition total (a : Uint8Array) : Z := foldr Z.add 0 a.

Lemma fold2_total current : forall previous s,
  fold2 (fun s p _ => s + default 0 p) s previous current = s + total previous.
Proof.
  intros previous. revert current.
  induction previous as [|p ps IH]; intros current s; simpl; [lia|].
  rewrite IH. lia.
Qed.

Lemma countLiveCells_total grid : countLiveCells grid = total grid.
Proof.
  unfold countLiveCells.
  rewrite (foldl_paired (fun s p _ => s + default 0 p) 0 grid grid).
  rewrite fold2_total. lia.
Qed.

Lemma total_binary grid : binary grid ->
  total grid = Z.of_nat (length (filter (fun v => v = 1) grid)).
Proof.
  induction grid as [|v grid IH]; intros Hbin; [reflexivity|].
  apply Forall_cons in Hbin as [Hv Hbin]. simpl total. rewrite IH by exact Hbin.
  destruct Hv as [-> | ->].
  - rewrite filter_cons_False by lia. lia.
  - rewrite filter_cons_True by reflexivity. simpl length. lia.
Qed.

(** X13. [countLiveCells] is the sum of the entries; on a grid with entries
    in {0,1} it is the number of live cells, between 0 and the number of
    cells. *)
Theorem countLiveCells_counts (grid : Uint8Array) :
  binary grid ->
  countLiveCells grid = Z.of_nat (length (filter (fun v => v = 1) grid)) /\
  0 <= countLiveCells grid <= Z.of_nat (length grid).
Proof.
  intros Hbin. rewrite countLiveCells_total, total_binary by exact Hbin.
  split; [reflexivity|].
  pose proof (length_filter (fun v => v = 1) grid). lia.
Qed.

Lemma countLiveCells_counts_witness :
  countLiveCells [0; 1; 1; 0; 1] = Z.of_nat (length (filter (fun v => v = 1) [0; 1; 1; 0; 1])) /\
  0 <= countLiveCells [0; 1; 1; 0; 1] <= Z.of_nat (length [0; 1; 1; 0; 1]).
Proof.
  apply (countLiveCells_counts [0; 1; 1; 0; 1]).
  unfold binary. repeat constructor; lia.
Defined.

Lemma total_diff previous : forall current,
  length previous = length current -> binary previous -> binary current ->
  total current = total previous + countPairs isBirth previous current
                  - countPairs isDeath previous current.
Proof.
  induction previous as [|p ps IH]; intros current Hlen Hp Hc.
  - destruct current; [reflexivity|discriminate].
  - destruct current as [|c cs]; [discriminate|].
    apply Forall_cons in Hp as [Hp0 Hp]. apply Forall_cons in Hc as [Hc0 Hc].
    specialize (IH cs ltac:(simpl in Hlen; lia) Hp Hc).
    cbn [total foldr countPairs]. fold (total cs). fold (total ps).
    destruct Hp0 as [-> | ->], Hc0 as [-> | ->]; simpl; lia.
Qed.

(** X14. Population accounting: for equal-length grids with entries in
    {0,1}, the live cells of the current grid are those of the previous one
    plus the births minus the deaths that [countBirthsAndDeaths] reports. *)
Theorem population_accounting (previous current : Uint8Array) :
  length previous = length current ->
  binary previous -> binary current ->
  countLiveCells current
  = countLiveCells previous
    + births (countBirthsAndDeaths previous current)
    - deaths (countBirthsAndDeaths previous current).
Proof.
  intros Hlen Hp Hc. rewrite !countLiveCells_total. unfold countBirthsAndDeaths.
  rewrite (foldl_paired diffStep), fold2_diffStep by assumption.
  simpl births. simpl deaths. rewrite (total_diff previous current) by assumption. lia.
Qed.

Lemma population_accounting_witness :
  countLiveCells [1; 0; 0; 1]
  = countLiveCells [0; 1; 0; 1]
    + births (countBirthsAndDeaths [0; 1; 0; 1] [1; 0; 0; 1])
    - deaths (countBirthsAndDeaths [0; 1; 0; 1] [1; 0; 0; 1]).
Proof.
  apply (population_accounting [0; 1; 0; 1] [1; 0; 0; 1]).
  - reflexivity.
  - unfold binary. repeat constructor; lia.
  - unfold binary. repeat constructor; lia.
Defined.

(** The counts of [countBirthsAndDeaths] for buffers of any bytes: a birth
    is a falsy entry turned truthy, a death a truthy entry turned falsy. *)
Definition turnsOn (p c : Z) : bool := (p =? 0) && negb (c =? 0).
Definition turnsOff (p c : Z) : bool := negb (p =? 0) && (c =? 0).

Lemma fold2_diffStep_bytes previous : forall current d,
  length previous = length current ->
  fold2 diffStep d previous current =
  {| births := births d + countPairs turnsOn previous current;
     deaths := deaths d + countPairs turnsOff previous current |}.
Proof.
  induction previous as [|p ps IH]; intros current d Hlen.
  - destruct d as [b dd]. simpl. f_equal; lia.
  - destruct current as [|c cs]; [discriminate|].
    cbn [fold2 head tail countPairs]. rewrite IH by (simpl in Hlen; lia).
    destruct d as [b dd]. unfold diffStep, turnsOn, turnsOff. simpl truthy.
    destruct (p =? 0), (c =? 0); simpl; f_equal; lia.
Qed.

Lemma countPairs_swap previous : forall current,
  countPairs turnsOn previous current = countPairs turnsOff current previous.
Proof.
  induction previous as [|p ps IH]; intros [|c cs]; try reflexivity.
  cbn [countPairs]. rewrite IH. unfold turnsOn, turnsOff.
  destruct (p =? 0), (c =? 0); reflexivity.
Qed.

Lemma countPairs_self (test : Z -> Z -> bool) grid :
  (forall v, test v v = false) -> countPairs test grid grid = 0.
Proof.
  intros Ht. induction grid as [|v grid IH]; [reflexivity|].
  cbn [countPairs]. rewrite Ht, IH. reflexivity.
Qed.

(** X15. Swapping the two buffers of equal length swaps births and deaths. *)
Theorem diff_swap (previous current : Uint8Array) :
  length previous = length current ->
  births (countBirthsAndDeaths previous current)
    = deaths (countBirthsAndDeaths current previous) /\
  deaths (countBirthsAndDeaths previous current)
    = births (countBirthsAndDeaths current previous).
Proof.
  intros Hlen. unfold countBirthsAndDeaths.
  rewrite !(foldl_paired diffStep), !fold2_diffStep_bytes by congruence.
  simpl births. simpl deaths.
  rewrite (countPairs_swap previous current), (countPairs_swap current previous).
  split; reflexivity.
Qed.

Lemma diff_swap_witness :
  births (countBirthsAndDeaths [0; 7; 0; 1] [1; 0; 0; 3])
    = deaths (countBirthsAndDeaths [1; 0; 0; 3] [0; 7; 0; 1]) /\
  deaths (countBirthsAndDeaths [0; 7; 0; 1] [1; 0; 0; 3])
    = births (countBirthsAndDeaths [1; 0; 0; 3] [0; 7; 0; 1]).
Proof. apply (diff_swap [0; 7; 0; 1] [1; 0; 0; 3]). reflexivity. Defined.

(** X16. A buffer compared with itself has no births and no deaths. *)
Theorem diff_self (grid : Uint8Array) :
  countBirthsAndDeaths grid grid = {| births := 0; deaths := 0 |}.
Proof.
  unfold countBirthsAndDeaths.
  rewrite (foldl_paired diffStep), fold2_diffStep_bytes by reflexivity.
  rewrite !countPairs_self; [reflexivity| |];
    intros v; unfold turnsOn, turnsOff; destruct (v =? 0); reflexivity.
Qed.

Lemma fold2_diffStep_pad previous : forall current d,
  fold2 diffStep d previous current
  = fold2 diffStep d previous
      (current ++ replicate (length previous - length current) 0).
Proof.
  induction previous as [|p ps IH]; intros current d; [reflexivity|].
  destruct current as [|c cs].
  - cbn [fold2 head tail length Nat.sub app replicate].
    rewrite (IH [] _). rewrite Nat.sub_0_r. reflexivity.
  - cbn [fold2 head tail length Nat.sub app]. apply IH.
Qed.

Lemma fold2_diffStep_cut previous : forall current extra d,
  (length previous <= length current)%nat ->
  fold2 diffStep d previous (current ++ extra) = fold2 diffStep d previous current.
Proof.
  induction previous as [|p ps IH]; intros current extra d Hlen; [reflexivity|].
  destruct current as [|c cs]; [simpl in Hlen; lia|].
  cbn [fold2 head tail app]. apply IH. simpl in Hlen. lia.
Qed.

(** X17. Length mismatch: [countBirthsAndDeaths] scans previous.length
    cells and raises nothing; a current buffer that is too short is read as
    if padded with dead cells, and the cells of one that is too long are
    ignored. *)
Theorem diff_length_mismatch (previous current extra : Uint8Array) :
  countBirthsAndDeaths previous current
  = countBirthsAndDeaths previous
      (current ++ replicate (length previous - length current) 0) /\
  ((length previous <= length current)%nat ->
   countBirthsAndDeaths previous (current ++ extra)
   = countBirthsAndDeaths previous current).
Proof.
  unfold countBirthsAndDeaths. rewrite !(foldl_paired diffStep). split.
  - apply fold2_diffStep_pad.
  - intros Hlen. apply fold2_diffStep_cut. exact Hlen.
Qed.

(** ** Heat buffers *)

Lemma createHeatFromGrid_as_update grid decay maxHeat :
  0 <= decay ->
  createHeatFromGrid grid maxHeat
  = updateHeatMap (replicate (length grid) 0) grid decay maxHeat.
Proof.
  intros Hdecay. unfold createHeatFromGrid, updateHeatMap.
  rewrite length_replicate. apply foldl_ext_in.
  intros heat i Hi. apply elem_of_range in Hi. f_equal.
  rewrite get_replicate by lia. unfold nextHeat.
  destruct (truthy (get grid (Int i))); [reflexivity|].
  destruct (Z.gtb_spec 0 decay); [lia|reflexivity].
Qed.

(** X18. Initialising the heat from a grid is one update of an all-zero
    heat buffer with that grid, for every decay >= 0. *)
Theorem createHeat_is_first_update (grid : Uint8Array) (decay maxHeat : Z) :
  0 <= decay ->
  createHeatFromGrid grid maxHeat
  = updateHeatMap (replicate (length grid) 0) grid decay maxHeat.
Proof. apply createHeatFromGrid_as_update. Qed.

Lemma createHeat_is_first_update_witness :
  createHeatFromGrid [0; 1; 1; 0] 10
  = updateHeatMap (replicate (length [0; 1; 1; 0]) 0) [0; 1; 1; 0] 1 10.
Proof. apply (createHeat_is_first_update [0; 1; 1; 0] 1 10). lia. Defined.

Lemma nextHeat_range p c decay maxHeat :
  0 <= decay -> 0 <= maxHeat <= 255 ->
  (forall v, p = Some v -> 0 <= v <= maxHeat) ->
  0 <= nextHeat p c decay maxHeat mod 256 <= maxHeat.
Proof.
  intros Hd Hm Hp. unfold nextHeat.
  destruct (truthy c); [rewrite Z.mod_small; lia|].
  destruct p as [v|]; [|rewrite Z.mod_0_l; lia].
  specialize (Hp v eq_refl).
  destruct (Z.gtb_spec v decay); [rewrite Z.mod_small; lia|rewrite Z.mod_0_l; lia].
Qed.

Lemma updateHeatMap_range previous currentGrid decay maxHeat :
  0 <= decay -> 0 <= maxHeat <= 255 ->
  Forall (fun h => 0 <= h <= maxHeat) previous ->
  Forall (fun h => 0 <= h <= maxHeat) (updateHeatMap previous currentGrid decay maxHeat).
Proof.
  intros Hd Hm Hprev. unfold updateHeatMap.
  apply (Forall_writeLoop Int (fun h => 0 <= h <= maxHeat)
    (fun i => nextHeat (get previous (Int i)) (get currentGrid (Int i)) decay maxHeat)).
  - apply Forall_replicate. lia.
  - intros i _. apply nextHeat_range; [exact Hd|exact Hm|].
    intros v Hv. simpl in Hv. destruct (i <? 0); [discriminate|].
    rewrite Forall_lookup in Hprev. exact (Hprev _ _ Hv).
Qed.

(** X19. The heat stays in range: for decay >= 0 and 0 <= maxHeat <= 255,
    if every entry of the previous heat lies in [0, maxHeat] then so does
    every entry of the updated heat, whose length is that of the previous
    heat, whatever the grid buffer (of any length) holds. *)
Theorem heat_stays_in_range (previous currentGrid : Uint8Array) (decay maxHeat : Z) :
  0 <= decay -> 0 <= maxHeat <= 255 ->
  Forall (fun h => 0 <= h <= maxHeat) previous ->
  Forall (fun h => 0 <= h <= maxHeat) (updateHeatMap previous currentGrid decay maxHeat) /\
  length (updateHeatMap previous currentGrid decay maxHeat) = length previous.
Proof.
  intros Hd Hm Hprev. split.
  - apply updateHeatMap_range; assumption.
  - apply length_updateHeatMap.
Qed.

Lemma heat_stays_in_range_witness :
  Forall (fun h => 0 <= h <= 10) (updateHeatMap [10; 3; 0] [0; 1] 2 10) /\
  length (updateHeatMap [10; 3; 0] [0; 1] 2 10) = length [10; 3; 0].
Proof.
  apply (heat_stays_in_range [10; 3; 0] [0; 1] 2 10).
  - lia.
  - lia.
  - repeat constructor; lia.
Defined.

(** X20. The trail fades out: with decay > 0, a cell of heat h that is dead
    in each of m consecutive updates, m*decay >= h, has heat 0. *)
Theorem heat_fades_out (heat : Uint8Array) (grids : list Uint8Array)
    (decay maxHeat i h : Z) :
  0 < decay ->
  0 <= h < 256 ->
  get heat (Int i) = Some h ->
  Forall (fun grid => get grid (Int i) = Some 0) grids ->
  h <= Z.of_nat (length grids) * decay ->
  get (updateHeatMapEach decay maxHeat heat grids) (Int i) = Some 0.
Proof.
  intros Hd Hh Hheat Hdead Hm.
  rewrite (heat_decays decay maxHeat ltac:(lia) i grids heat h Hh Hheat Hdead).
  f_equal. lia.
Qed.

Lemma heat_fades_out_witness :
  get (updateHeatMapEach 4 10 [10; 10] [[1; 0]; [0; 0]; [1; 0]]) (Int 1) = Some 0.
Proof.
  apply (heat_fades_out [10; 10] [[1; 0]; [0; 0]; [1; 0]] 4 10 1 10).
  - lia.
  - lia.
  - reflexivity.
  - repeat constructor.
  - simpl. lia.
Defined.

(** ** Random grids

    [Math.random()] is the only effect of the engine.  [randomizeGrid] calls
    it once per cell, in index order; [random k] stands for the value of the
    k-th call, a rational in [0, 1) as every double is, and [density] is a
    rational too: the comparison is the only operation on them. *)

Module Random.
Import QArith_base (Q, Qlt_le_dec, Qle, Qlt, inject_Z).

Definition randomizeGrid (random : nat -> Q) (cols rows : Z) (density : Q)
    : result Uint8Array :=
  match createGrid cols rows with
  | Throw e => Throw e
  | Ok grid =>
      Ok (foldl (fun grid i =>
            set grid (Int i)
              (if Qlt_le_dec (random (Z.to_nat i)) density then 1 else 0))
          grid (range 0 (Z.of_nat (length grid))))
  end.

(** What [Math.random] promises. *)
Definition unitInterval (random : nat -> Q) : Prop :=
  forall k, Qle (inject_Z 0) (random k) /\ Qlt (random k) (inject_Z 1).

Lemma randomizeGrid_cells random cols rows density :
  0 <= cols * rows ->
  exists grid,
    randomizeGrid random cols rows density = Ok grid /\
    Z.of_nat (length grid) = cols * rows /\
    forall i, 0 <= i < cols * rows ->
      get grid (Int i)
      = Some (if Qlt_le_dec (random (Z.to_nat i)) density then 1 else 0).
Proof.
  intros Hlen. unfold randomizeGrid. rewrite createGrid_ok by exact Hlen.
  rewrite length_replicate.
  set (valf := fun i : Z => if Qlt_le_dec (random (Z.to_nat i)) density then 1 else 0).
  exists (writeLoop Int valf (range 0 (Z.of_nat (Z.to_nat (cols * rows))))
            (replicate (Z.to_nat (cols * rows)) 0)).
  split; [reflexivity|]. split.
  - rewrite length_writeLoop, length_replicate. lia.
  - intros i Hi.
    transitivity (Some (valf i mod 256));
      [|unfold valf; destruct (Qlt_le_dec _ _); reflexivity].
    apply get_writeLoop_written.
    + rewrite length_replicate. lia.
    + exists i. split; [apply elem_of_range; lia|reflexivity].
    + intros i' _ E. inversion E. reflexivity.
Qed.

End Random.

Lemma get_replicate_value (n : nat) (v j : Z) :
  0 <= j < Z.of_nat n -> get (replicate n v) (Int j) = Some v.
Proof.
  intros Hj. simpl. destruct (Z.ltb_spec j 0) as [?|_]; [lia|].
  apply lookup_replicate_2. lia.
Qed.

Lemma randomizeGrid_shape_ok random cols rows density :
  0 <= cols * rows ->
  exists grid, Random.randomizeGrid random cols rows density = Ok grid /\
               Z.of_nat (length grid) = cols * rows /\ binary grid.
Proof.
  intros Hlen.
  destruct (Random.randomizeGrid_cells random cols rows density Hlen)
    as (grid & Hok & Hl & Hcells).
  exists grid. split; [exact Hok|]. split; [exact Hl|].
  apply Forall_lookup. intros k v Hk.
  pose proof (lookup_lt_Some _ _ _ Hk) as Hlt.
  rewrite <- get_of_nat, Hcells in Hk by lia. inversion Hk.
  destruct (QArith_base.Qlt_le_dec _ _); auto.
Qed.

Lemma randomizeGrid_Ok_inv random cols rows density grid :
  Random.randomizeGrid random cols rows density = Ok grid -> 0 <= cols * rows.
Proof.
  unfold Random.randomizeGrid, createGrid, newUint8Array.
  destruct (Z.ltb_spec (cols * rows) 0); [discriminate|lia].
Qed.

(** X21. [randomizeGrid] throws a RangeError when cols*rows is negative;
    whenever it returns, whatever the random source and the density, the
    grid has cols*rows cells, each 0 or 1. *)
Theorem randomizeGrid_shape (random : nat -> QArith_base.Q) (cols rows : Z)
    (density : QArith_base.Q) :
  (cols * rows < 0 -> Random.randomizeGrid random cols rows density = Throw RangeError) /\
  (forall grid, Random.randomizeGrid random cols rows density = Ok grid ->
                Z.of_nat (length grid) = cols * rows /\ binary grid).
Proof.
  split.
  - intros Hneg. unfold Random.randomizeGrid, createGrid, newUint8Array.
    destruct (Z.ltb_spec (cols * rows) 0); [reflexivity|lia].
  - intros grid Hok. pose proof (randomizeGrid_Ok_inv _ _ _ _ _ Hok) as Hlen.
    destruct (randomizeGrid_shape_ok random cols rows density Hlen) as (grid' & E & H).
    rewrite Hok in E. inversion E. subst grid'. exact H.
Qed.

(** The grid [randomizeGrid] returns when every comparison
    [Math.random() < density] has the same outcome. *)
Lemma randomizeGrid_constant random cols rows density grid (v : Z) :
  Random.randomizeGrid random cols rows density = Ok grid ->
  (forall k, (if QArith_base.Qlt_le_dec (random k) density then 1 else 0) = v) ->
  grid = replicate (Z.to_nat (cols * rows)) v.
Proof.
  intros Hok Hv. pose proof (randomizeGrid_Ok_inv _ _ _ _ _ Hok) as Hlen.
  destruct (Random.randomizeGrid_cells random cols rows density Hlen)
    as (grid' & E & Hl & Hcells).
  rewrite Hok in E. inversion E. subst grid'.
  apply buffer_ext; [rewrite length_replicate; lia|].
  intros i Hi. rewrite Hl in Hi. rewrite Hcells by exact Hi.
  rewrite get_replicate_value by lia. f_equal. apply Hv.
Qed.

(** X22. With a random source in [0, 1) and a density <= 0, the grid
    [randomizeGrid] returns is all dead. *)
Theorem randomizeGrid_density_zero (random : nat -> QArith_base.Q) (cols rows : Z)
    (density : QArith_base.Q) (grid : Uint8Array) :
  Random.unitInterval random ->
  QArith_base.Qle density (QArith_base.inject_Z 0) ->
  Random.randomizeGrid random cols rows density = Ok grid ->
  grid = replicate (Z.to_nat (cols * rows)) 0.
Proof.
  intros Hunit Hd Hok. apply (randomizeGrid_constant random cols rows density); [exact Hok|].
  intros k. destruct (Hunit k) as [H0 H1].
  destruct (QArith_base.Qlt_le_dec (random k) density) as [Hlt|Hle]; [|reflexivity].
  exfalso. apply (QArith_base.Qlt_irrefl (random k)).
  eapply QArith_base.Qlt_le_trans; [exact Hlt|].
  eapply QArith_base.Qle_trans; [exact Hd|exact H0].
Qed.

Lemma randomizeGrid_density_zero_witness :
  Random.randomizeGrid (fun _ => QArith_base.Qmake 1 2) 3 2 (QArith_base.inject_Z 0)
    = Ok [0; 0; 0; 0; 0; 0] /\
  [0; 0; 0; 0; 0; 0] = replicate (Z.to_nat (3 * 2)) 0.
Proof.
  split; [vm_compute; reflexivity|].
  apply (randomizeGrid_density_zero (fun _ => QArith_base.Qmake 1 2) 3 2
           (QArith_base.inject_Z 0) [0; 0; 0; 0; 0; 0]).
  - intros k. split; vm_compute; [discriminate|reflexivity].
  - vm_compute. discriminate.
  - vm_compute. reflexivity.
Defined.

(** X27. With a random source in [0, 1) and a density >= 1, the grid
    [randomizeGrid] returns is all alive. *)
Theorem randomizeGrid_density_one (random : nat -> QArith_base.Q) (cols rows : Z)
    (density : QArith_base.Q) (grid : Uint8Array) :
  Random.unitInterval random ->
  QArith_base.Qle (QArith_base.inject_Z 1) density ->
  Random.randomizeGrid random cols rows density = Ok grid ->
  grid = replicate (Z.to_nat (cols * rows)) 1.
Proof.
  intros Hunit Hd Hok. apply (randomizeGrid_constant random cols rows density); [exact Hok|].
  intros k. destruct (Hunit k) as [H0 H1].
  destruct (QArith_base.Qlt_le_dec (random k) density) as [Hlt|Hle]; [reflexivity|].
  exfalso. apply (QArith_base.Qlt_irrefl (random k)).
  eapply QArith_base.Qlt_le_trans; [exact H1|].
  eapply QArith_base.Qle_trans; [exact Hd|exact Hle].
Qed.

Lemma randomizeGrid_density_one_witness :
  Random.randomizeGrid (fun _ => QArith_base.Qmake 1 2) 3 2 (QArith_base.inject_Z 1)
    = Ok [1; 1; 1; 1; 1; 1] /\
  [1; 1; 1; 1; 1; 1] = replicate (Z.to_nat (3 * 2)) 1.
Proof.
  split; [vm_compute; reflexivity|].
  apply (randomizeGrid_density_one (fun _ => QArith_base.Qmake 1 2) 3 2
           (QArith_base.inject_Z 1) [1; 1; 1; 1; 1; 1]).
  - intros k. split; vm_compute; [discriminate|reflexivity].
  - vm_compute. discriminate.
  - vm_compute. reflexivity.
Defined.

(** ** The application store

    The store of the application holds the current grid and heat and drives
    the engine.  Its state is the data part of [LifeState]; each action is
    the function passed to [set], which merges the returned fields into the
    state.  [IS_MOBILE_VIEW] is read once from the window, and fixes the
    dimensions of the grid. *)

Module Store.

Definition COLS (IS_MOBILE_VIEW : bool) : Z := if IS_MOBILE_VIEW then 36 else 64.
Definition ROWS (IS_MOBILE_VIEW : bool) : Z := if IS_MOBILE_VIEW then 24 else 40.

Inductive ToolMode : Type := draw | erase | stamp.

Record LifeState : Type := {
  grid : Uint8Array;
  heat : Uint8Array;
  running : bool;
  speedMs : Z;
  generation : Z;
  rule : RulePreset;
  wrapEdges : bool;
  showTrails : bool;
  showGridLines : bool;
  brushSize : Z;
  tool : ToolMode;
  selectedPattern : PatternName;
  births : Z;
  deaths : Z
}.

Section Actions.
Variable IS_MOBILE_VIEW : bool.
Local Abbreviation cols := (COLS IS_MOBILE_VIEW).
Local Abbreviation rows := (ROWS IS_MOBILE_VIEW).

Definition initialState : result LifeState :=
  match createGrid cols rows with
  | Throw e => Throw e
  | Ok grid0 =>
      match createGrid cols rows with
      | Throw e => Throw e
      | Ok heat0 =>
          Ok {| grid := grid0; heat := heat0; running := false; speedMs := 120;
                generation := 0; rule := conway; wrapEdges := true;
                showTrails := true; showGridLines := true; brushSize := 1;
                tool := draw; selectedPattern := glider; births := 0; deaths := 0 |}
      end
  end.

Definition step (state : LifeState) : result LifeState :=
  match stepGrid state.(grid) cols rows
          {| GameOfLife.rule := state.(rule);
             GameOfLife.wrapEdges := state.(wrapEdges) |} with
  | Throw e => Throw e
  | Ok nextGrid =>
      let diff := countBirthsAndDeaths state.(grid) nextGrid in
      Ok {| grid := nextGrid;
            heat := updateHeatMap state.(heat) nextGrid 1 10;
            births := diff.(GameOfLife.births);
            deaths := diff.(GameOfLife.deaths);
            generation := state.(generation) + 1;
            running := state.(running); speedMs := state.(speedMs);
            rule := state.(rule); wrapEdges := state.(wrapEdges);
            showTrails := state.(showTrails); showGridLines := state.(showGridLines);
            brushSize := state.(brushSize); tool := state.(tool);
            selectedPattern := state.(selectedPattern) |}
  end.

Definition clear (state : LifeState) : result LifeState :=
  match createGrid cols rows with
  | Throw e => Throw e
  | Ok grid0 =>
      match createGrid cols rows with
      | Throw e => Throw e
      | Ok heat0 =>
          Ok {| grid := grid0; heat := heat0; generation := 0; births := 0;
                deaths := 0; running := false;
                speedMs := state.(speedMs); rule := state.(rule);
                wrapEdges := state.(wrapEdges); showTrails := state.(showTrails);
                showGridLines := state.(showGridLines);
                brushSize := state.(brushSize); tool := state.(tool);
                selectedPattern := state.(selectedPattern) |}
      end
  end.

(** The double that the literal 0.24 denotes. *)
Definition density024 : QArith_base.Q := QArith_base.Qmake 1080863910568919 4503599627370496.

(** [random] gives the values of the calls of [Math.random] made by this
    action. *)
Definition randomize (random : nat -> QArith_base.Q) (state : LifeState)
    : result LifeState :=
  match Random.randomizeGrid random cols rows density024 with
  | Throw e => Throw e
  | Ok nextGrid =>
      Ok {| grid := nextGrid; heat := createHeatFromGrid nextGrid 10;
            generation := 0; births := 0; deaths := 0;
            running := state.(running); speedMs := state.(speedMs);
            rule := state.(rule); wrapEdges := state.(wrapEdges);
            showTrails := state.(showTrails); showGridLines := state.(showGridLines);
            brushSize := state.(brushSize); tool := state.(tool);
            selectedPattern := state.(selectedPattern) |}
  end.

Definition interactAt (x y : Z) (state : LifeState) : LifeState :=
  let nextGrid :=
    match state.(tool) with
    | stamp =>
        stampPattern state.(grid) cols rows state.(selectedPattern) x y
          state.(wrapEdges)
    | t =>
        let alive := match t with draw => true | _ => false end in
        applyBrush state.(grid) cols rows x y state.(brushSize) alive
          state.(wrapEdges)
    end in
  {| grid := nextGrid; heat := updateHeatMap state.(heat) nextGrid 0 10;
     running := state.(running); speedMs := state.(speedMs);
     generation := state.(generation); rule := state.(rule);
     wrapEdges := state.(wrapEdges); showTrails := state.(showTrails);
     showGridLines := state.(showGridLines); brushSize := state.(brushSize);
     tool := state.(tool); selectedPattern := state.(selectedPattern);
     births := state.(births); deaths := state.(deaths) |}.

Definition placePatternInCenter (pattern : PatternName) (state : LifeState)
    : LifeState :=
  let cx := cols / 2 in
  let cy := rows / 2 in
  let nextGrid := stampPattern state.(grid) cols rows pattern cx cy state.(wrapEdges) in
  {| grid := nextGrid; heat := updateHeatMap state.(heat) nextGrid 0 10;
     selectedPattern := pattern;
     running := state.(running); speedMs := state.(speedMs);
     generation := state.(generation); rule := state.(rule);
     wrapEdges := state.(wrapEdges); showTrails := state.(showTrails);
     showGridLines := state.(showGridLines); brushSize := state.(brushSize);
     tool := state.(tool); births := state.(births); deaths := state.(deaths) |}.

(** The setters merge one field. *)
Inductive Setting : Type :=
| setRunning (running : bool)
| setSpeed (speedMs : Z)
| setRule (rule : RulePreset)
| setWrapEdges (wrapEdges : bool)
| setShowTrails (showTrails : bool)
| setShowGridLines (showGridLines : bool)
| setBrushSize (brushSize : Z)
| setTool (tool : ToolMode)
| setPattern (selectedPattern : PatternName).

Definition applySetting (setting : Setting) (state : LifeState) : LifeState :=
  {| grid := state.(grid); heat := state.(heat);
     running := match setting with setRunning v => v | _ => state.(running) end;
     speedMs := match setting with setSpeed v => v | _ => state.(speedMs) end;
     generation := state.(generation);
     rule := match setting with setRule v => v | _ => state.(rule) end;
     wrapEdges := match setting with setWrapEdges v => v | _ => state.(wrapEdges) end;
     showTrails := match setting with setShowTrails v => v | _ => state.(showTrails) end;
     showGridLines :=
       match setting with setShowGridLines v => v | _ => state.(showGridLines) end;
     brushSize := match setting with setBrushSize v => v | _ => state.(brushSize) end;
     tool := match setting with setTool v => v | _ => state.(tool) end;
     selectedPattern :=
       match setting with setPattern v => v | _ => state.(selectedPattern) end;
     births := state.(births); deaths := state.(deaths) |}.

(** The states the store can be in: the initial state and what the actions
    make of a state the store can be in. *)
Inductive reachable : LifeState -> Prop :=
| reach_initial state : initialState = Ok state -> reachable state
| reach_step state state' :
    reachable state -> step state = Ok state' -> reachable state'
| reach_clear state state' :
    reachable state -> clear state = Ok state' -> reachable state'
| reach_randomize random state state' :
    reachable state -> randomize random state = Ok state' -> reachable state'
| reach_interactAt x y state :
    reachable state -> reachable (interactAt x y state)
| reach_placePatternInCenter pattern state :
    reachable state -> reachable (placePatternInCenter pattern state)
| reach_setting setting state :
    reachable state -> reachable (applySetting setting state).

(** What the store keeps true: both buffers have cols*rows cells, the grid
    holds 0s and 1s, the heat lies in [0, 10], and a live cell has heat 10. *)
Definition consistent (state : LifeState) : Prop :=
  Z.of_nat (length state.(grid)) = cols * rows /\
  length state.(heat) = length state.(grid) /\
  binary state.(grid) /\
  Forall (fun h => 0 <= h <= 10) state.(heat) /\
  forall i, truthy (get state.(grid) (Int i)) = true ->
            get state.(heat) (Int i) = Some 10.

End Actions.

End Store.

(** ** What the store keeps true *)

Section StoreInvariant.
Variable IS_MOBILE_VIEW : bool.
Local Abbreviation cols := (Store.COLS IS_MOBILE_VIEW).
Local Abbreviation rows := (Store.ROWS IS_MOBILE_VIEW).

Lemma store_dimensions : 0 < cols /\ 0 < rows /\ 0 <= cols * rows.
Proof. destruct IS_MOBILE_VIEW; simpl; lia. Qed.

(** The heat computed from a heat in range and a grid of the same length. *)
Lemma heat_follows_grid (heat grid : Uint8Array) (decay : Z) :
  0 <= decay ->
  length heat = length grid ->
  Forall (fun h => 0 <= h <= 10) heat ->
  length (updateHeatMap heat grid decay 10) = length grid /\
  Forall (fun h => 0 <= h <= 10) (updateHeatMap heat grid decay 10) /\
  forall i, truthy (get grid (Int i)) = true ->
            get (updateHeatMap heat grid decay 10) (Int i) = Some 10.
Proof.
  intros Hd Hlen Hheat.
  split; [rewrite length_updateHeatMap; exact Hlen|].
  split; [apply updateHeatMap_range; [exact Hd|lia|exact Hheat]|].
  intros i Hlive.
  destruct (get grid (Int i)) as [v|] eqn:Hv; [|discriminate].
  apply get_Some_range in Hv as Hi.
  rewrite get_updateHeatMap by (rewrite Hlen; exact Hi).
  rewrite Hv. unfold nextHeat. rewrite Hlive. reflexivity.
Qed.

Lemma consistent_all_dead (state : Store.LifeState) :
  Store.grid state = replicate (Z.to_nat (cols * rows)) 0 ->
  Store.heat state = replicate (Z.to_nat (cols * rows)) 0 ->
  Store.consistent IS_MOBILE_VIEW state.
Proof.
  intros Hg Hh. pose proof store_dimensions as (_ & _ & Hlen).
  unfold Store.consistent. rewrite Hg, Hh, !length_replicate.
  split; [lia|]. split; [reflexivity|].
  split; [apply Forall_replicate; left; reflexivity|].
  split; [apply Forall_replicate; lia|].
  intros i Hlive. destruct (get (replicate _ 0) (Int i)) as [v|] eqn:Hv; [|discriminate].
  apply get_Some_range in Hv as Hi. rewrite length_replicate in Hi.
  rewrite get_replicate in Hv by exact Hi. inversion Hv. subst v. discriminate.
Qed.

Lemma consistent_edit (state : Store.LifeState) (nextGrid : Uint8Array) (decay : Z)
    (state' : Store.LifeState) :
  0 <= decay ->
  Store.consistent IS_MOBILE_VIEW state ->
  length nextGrid = length (Store.grid state) ->
  binary nextGrid ->
  Store.grid state' = nextGrid ->
  Store.heat state' = updateHeatMap (Store.heat state) nextGrid decay 10 ->
  Store.consistent IS_MOBILE_VIEW state'.
Proof.
  intros Hd (Hlen & Hheatlen & Hbin & Hheat & Hlive) Hnlen Hnbin Hg Hh.
  destruct (heat_follows_grid (Store.heat state) nextGrid decay Hd) as (H1 & H2 & H3);
    [congruence|exact Hheat|].
  unfold Store.consistent. rewrite Hg, Hh.
  split; [rewrite Hnlen; exact Hlen|]. split; [exact H1|].
  split; [exact Hnbin|]. split; [exact H2|exact H3].
Qed.

Lemma step_consistent state state' :
  Store.consistent IS_MOBILE_VIEW state ->
  Store.step IS_MOBILE_VIEW state = Ok state' ->
  Store.consistent IS_MOBILE_VIEW state'.
Proof.
  intros Hs Hstep. unfold Store.step in Hstep.
  pose proof store_dimensions as (_ & _ & Hdim).
  destruct (stepGrid_shape_ok (Store.grid state) cols rows
              {| rule := Store.rule state; wrapEdges := Store.wrapEdges state |} Hdim)
    as (nextGrid & Hok & Hlen & Hbin).
  rewrite Hok in Hstep. inversion Hstep as [E]. clear Hstep.
  apply (consistent_edit state nextGrid 1); try reflexivity; try assumption; [lia|].
  destruct Hs as (Hl & _). lia.
Qed.

Lemma interactAt_consistent x y state :
  Store.consistent IS_MOBILE_VIEW state ->
  Store.consistent IS_MOBILE_VIEW (Store.interactAt IS_MOBILE_VIEW x y state).
Proof.
  intros Hs. pose proof Hs as (_ & _ & Hbin & _).
  eapply (consistent_edit state _ 0); [lia|exact Hs| | |reflexivity|reflexivity].
  - unfold Store.interactAt. cbn [Store.grid]. destruct (Store.tool state);
      [apply length_applyBrush|apply length_applyBrush|apply length_stampPattern].
  - unfold Store.interactAt. cbn [Store.grid]. destruct (Store.tool state);
      [apply binary_applyBrush|apply binary_applyBrush|apply binary_stampPattern];
      exact Hbin.
Qed.

Lemma placePatternInCenter_consistent pattern state :
  Store.consistent IS_MOBILE_VIEW state ->
  Store.consistent IS_MOBILE_VIEW
    (Store.placePatternInCenter IS_MOBILE_VIEW pattern state).
Proof.
  intros Hs. pose proof Hs as (_ & _ & Hbin & _).
  eapply (consistent_edit state _ 0); [lia|exact Hs| | |reflexivity|reflexivity].
  - unfold Store.placePatternInCenter. cbn [Store.grid]. apply length_stampPattern.
  - unfold Store.placePatternInCenter. cbn [Store.grid].
    apply binary_stampPattern. exact Hbin.
Qed.

Lemma randomize_consistent random state state' :
  Store.randomize IS_MOBILE_VIEW random state = Ok state' ->
  Store.consistent IS_MOBILE_VIEW state'.
Proof.
  intros Hr. unfold Store.randomize in Hr.
  pose proof store_dimensions as (_ & _ & Hdim).
  destruct (randomizeGrid_shape_ok random cols rows Store.density024 Hdim)
    as (nextGrid & Hok & Hlen & Hbin).
  rewrite Hok in Hr. inversion Hr as [E]. clear Hr.
  destruct (heat_follows_grid (replicate (length nextGrid) 0) nextGrid 0)
    as (H1 & H2 & H3); [lia|apply length_replicate|apply Forall_replicate; lia|].
  unfold Store.consistent. simpl.
  rewrite (createHeatFromGrid_as_update nextGrid 0 10) by lia.
  split; [exact Hlen|]. split; [exact H1|]. split; [exact Hbin|].
  split; [exact H2|exact H3].
Qed.

Lemma reachable_consistent state :
  Store.reachable IS_MOBILE_VIEW state -> Store.consistent IS_MOBILE_VIEW state.
Proof.
  pose proof store_dimensions as (_ & _ & Hdim).
  induction 1 as [state Hinit|state state' _ IH Hstep|state state' _ IH Hclear
                 |random state state' _ IH Hrand|x y state _ IH|pattern state _ IH
                 |setting state _ IH].
  - unfold Store.initialState in Hinit. rewrite createGrid_ok in Hinit by exact Hdim.
    inversion Hinit. apply consistent_all_dead; reflexivity.
  - exact (step_consistent state state' IH Hstep).
  - unfold Store.clear in Hclear. rewrite createGrid_ok in Hclear by exact Hdim.
    inversion Hclear. apply consistent_all_dead; reflexivity.
  - exact (randomize_consistent random state state' Hrand).
  - apply interactAt_consistent. exact IH.
  - apply placePatternInCenter_consistent. exact IH.
  - exact IH.
Qed.

End StoreInvariant.



(** X24. A step of the store from a reachable state never throws; it adds
    one generation, and the births and deaths it records account for the
    change of population: live cells after = live cells before + births -
    deaths. *)
Theorem store_step_accounts (IS_MOBILE_VIEW : bool) (state : Store.LifeState) :
  Store.reachable IS_MOBILE_VIEW state ->
  exists state',
    Store.step IS_MOBILE_VIEW state = Ok state' /\
    Store.generation state' = Store.generation state + 1 /\
    countLiveCells (Store.grid state')
    = countLiveCells (Store.grid state) + Store.births state' - Store.deaths state'.
Proof.
  intros Hreach.
  destruct (reachable_consistent IS_MOBILE_VIEW state Hreach) as (Hlen & _ & Hbin & _).
  pose proof (store_dimensions IS_MOBILE_VIEW) as (_ & _ & Hdim).
  destruct (stepGrid_shape_ok (Store.grid state) (Store.COLS IS_MOBILE_VIEW)
              (Store.ROWS IS_MOBILE_VIEW)
              {| rule := Store.rule state; wrapEdges := Store.wrapEdges state |} Hdim)
    as (nextGrid & Hok & Hnlen & Hnbin).
  unfold Store.step. rewrite Hok. eexists. split; [reflexivity|].
  split; [reflexivity|]. simpl.
  assert (Hsame : length (Store.grid state) = length nextGrid) by lia.
  rewrite !countLiveCells_total. unfold countBirthsAndDeaths.
  rewrite (foldl_paired diffStep), fold2_diffStep by assumption.
  simpl births. simpl deaths.
  rewrite (total_diff (Store.grid state) nextGrid) by assumption. lia.
Qed.

Lemma store_step_accounts_witness :
  exists state',
    Store.step true
      (Store.placePatternInCenter true blinker
         {| Store.grid := allDead (36 * 24); Store.heat := allDead (36 * 24);
            Store.running := false; Store.speedMs := 120; Store.generation := 0;
            Store.rule := conway; Store.wrapEdges := true;
            Store.showTrails := true; Store.showGridLines := true;
            Store.brushSize := 1; Store.tool := Store.draw;
            Store.selectedPattern := glider;
            Store.births := 0; Store.deaths := 0 |}) = Ok state' /\
    Store.generation state'
    = Store.generation
        (Store.placePatternInCenter true blinker
           {| Store.grid := allDead (36 * 24); Store.heat := allDead (36 * 24);
              Store.running := false; Store.speedMs := 120; Store.generation := 0;
              Store.rule := conway; Store.wrapEdges := true;
              Store.showTrails := true; Store.showGridLines := true;
              Store.brushSize := 1; Store.tool := Store.draw;
              Store.selectedPattern := glider;
              Store.births := 0; Store.deaths := 0 |}) + 1 /\
    countLiveCells (Store.grid state')
    = countLiveCells
        (Store.grid
           (Store.placePatternInCenter true blinker
              {| Store.grid := allDead (36 * 24); Store.heat := allDead (36 * 24);
                 Store.running := false; Store.speedMs := 120; Store.generation := 0;
                 Store.rule := conway; Store.wrapEdges := true;
                 Store.showTrails := true; Store.showGridLines := true;
                 Store.brushSize := 1; Store.tool := Store.draw;
                 Store.selectedPattern := glider;
                 Store.births := 0; Store.deaths := 0 |}))
      + Store.births state' - Store.deaths state'.
Proof.
  apply (store_step_accounts true).
  apply Store.reach_placePatternInCenter. apply Store.reach_initial. reflexivity.
Defined.



(** ** A grid buffer that is missing *)

Lemma visit_empty x y cols rows wrap (neighbors : number) dy dx :
  neighbors = Int 0 \/ neighbors = NaN ->
  visit [] x y cols rows wrap neighbors dy dx = Int 0 \/
  visit [] x y cols rows wrap neighbors dy dx = NaN.
Proof.
  intros Hn. unfold visit.
  destruct ((dx =? 0) && (dy =? 0)); [exact Hn|].
  destruct wrap.
  - rewrite get_nil. right. destruct neighbors; reflexivity.
  - destruct (_ || _); [exact Hn|].
    rewrite get_nil. right. destruct neighbors; reflexivity.
Qed.

Lemma count_empty x y cols rows wrap :
  getNeighborCount [] x y cols rows wrap = Int 0 \/
  getNeighborCount [] x y cols rows wrap = NaN.
Proof.
  rewrite getNeighborCount_visits. repeat apply visit_empty. left. reflexivity.
Qed.

(** X26. Stepping an empty buffer on a grid of cols*rows cells never
    yields a live cell: the cells that are missing read as dead and the
    neighbour counts are 0 or NaN, so whenever [stepGrid] returns, for any
    preset and edge policy, its result is the all-dead grid. *)
Theorem stepGrid_of_empty_buffer (cols rows : Z) (options : Options)
    (result : Uint8Array) :
  stepGrid [] cols rows options = Ok result ->
  result = allDead (cols * rows).
Proof.
  intros Hok. pose proof (stepGrid_Ok_inv _ _ _ _ _ Hok) as Hlen.
  enough (E : stepGrid [] cols rows options = Ok (allDead (cols * rows)))
    by (rewrite Hok in E; inversion E; reflexivity).
  clear Hok result.
  destruct (decide (cols <= 0 \/ rows <= 0)) as [Hdeg|Hpos].
  { apply stepGrid_no_cell; assumption. }
  assert (Hc : 0 < cols) by lia. assert (Hr : 0 < rows) by lia.
  destruct (stepGrid_cells [] cols rows options Hc Hr) as (next & -> & Hnlen & Hcells).
  f_equal. apply buffer_ext.
  - unfold allDead. rewrite length_replicate. lia.
  - intros j Hj. rewrite Hnlen in Hj.
    destruct (index_cell j cols rows Hj Hc) as (Hx & Hy & Ej).
    replace (get (allDead (cols * rows)) (Int j)) with (Some 0)
      by (symmetry; apply get_replicate; lia).
    rewrite Ej at 1. rewrite Hcells by assumption. f_equal.
    unfold stepCell. rewrite get_nil. simpl isOne. unfold nextState.
    destruct (count_empty (j mod cols) (j / cols) cols rows (wrapEdges options))
      as [-> | ->]; [rewrite born_zero|]; reflexivity.
Qed.

Lemma stepGrid_of_empty_buffer_witness :
  stepGrid [] 3 2 {| rule := highlife; wrapEdges := true |} = Ok [0; 0; 0; 0; 0; 0] /\
  [0; 0; 0; 0; 0; 0] = allDead (3 * 2).
Proof.
  split; [vm_compute; reflexivity|].
  apply (stepGrid_of_empty_buffer 3 2 {| rule := highlife; wrapEdges := true |}
           [0; 0; 0; 0; 0; 0]).
  vm_compute. reflexivity.
Defined.
